(** * NanoServe / C-HTTP payment server: a shallow embedding in Rocq

    The HTTP request parser (src/src/http_parser.c), the response builder
    and serializer (http_response.c), the task queue (task_queue.c) and the
    per-connection pipeline (connection_handle in src/src/connection.c).

    C strings are modelled as lists of [ascii] holding the bytes before the
    terminating NUL; [size_t] values as [N]; [int] status codes as [Z]. *)

From Stdlib Require Import String Ascii List NArith ZArith Lia Bool.
Import ListNotations.
Set Warnings "-abstract-large-number".
Set Warnings "-notation-for-abbreviation".
Set Warnings "-deprecated-since-9.2".
Set Warnings "-deprecated".


Notation cstr := (list ascii).
Coercion list_ascii_of_string : string >-> list.
Open Scope string_scope.
Open Scope list_scope.

(** ** Bytes and C library helpers *)

Definition CR : ascii := "013"%char.
Definition LF : ascii := "010"%char.
Definition NUL : ascii := "000"%char.
Definition DQ : ascii := "034"%char.
Definition crlf : cstr := [CR; LF].

Definition ascii_eqb (a b : ascii) : bool := if ascii_dec a b then true else false.

Definition cstr_eqb (a b : cstr) : bool :=
  if list_eq_dec ascii_dec a b then true else false.

(** The bytes of a received buffer as the C string functions see them:
    everything before the first NUL. *)
Fixpoint c_string (s : cstr) : cstr :=
  match s with
  | [] => []
  | c :: s' => if ascii_eqb c NUL then [] else c :: c_string s'
  end.

(** [strtok_r]: a delimiter set is a predicate on bytes. *)
Fixpoint skip_delims (d : ascii -> bool) (s : cstr) : cstr :=
  match s with
  | [] => []
  | c :: s' => if d c then skip_delims d s' else s
  end.

(** The token starting at [s] and what follows it (the delimiter included). *)
Fixpoint take_token (d : ascii -> bool) (s : cstr) : cstr * cstr :=
  match s with
  | [] => ([], [])
  | c :: s' =>
      if d c then ([], s)
      else let (t, r) := take_token d s' in (c :: t, r)
  end.

(** One call of [strtok_r]: skip leading delimiters; if nothing is left
    return NULL, otherwise the token, and the save pointer just past the
    delimiter that [strtok_r] overwrote with NUL. *)
Definition strtok_next (d : ascii -> bool) (s : cstr) : option (cstr * cstr) :=
  match skip_delims d s with
  | [] => None
  | s1 =>
      let (t, r) := take_token d s1 in
      Some (t, match r with [] => [] | _ :: r' => r' end)
  end.

(** Repeated [strtok_r(NULL, ...)] calls until NULL, as in a
    [while (line != NULL)] loop.  Every call consumes at least one byte, so
    [length s + 1] calls always suffice. *)
Fixpoint strtok_iter (d : ascii -> bool) (fuel : nat) (s : cstr) : list cstr :=
  match fuel with
  | O => []
  | S f =>
      match strtok_next d s with
      | None => []
      | Some (t, r) => t :: strtok_iter d f r
      end
  end.

Definition strtok_all (d : ascii -> bool) (s : cstr) : list cstr :=
  strtok_iter d (S (length s)) s.

(** The tokens of a string: its maximal non-empty runs of non-delimiters. *)
Fixpoint split_tokens_acc (d : ascii -> bool) (cur : cstr) (s : cstr) : list cstr :=
  match s with
  | [] => match cur with [] => [] | _ => [rev cur] end
  | c :: s' =>
      if d c then
        match cur with
        | [] => split_tokens_acc d [] s'
        | _ => rev cur :: split_tokens_acc d [] s'
        end
      else split_tokens_acc d (c :: cur) s'
  end.

Definition split_tokens (d : ascii -> bool) (s : cstr) : list cstr :=
  split_tokens_acc d [] s.

Definition is_space_delim (c : ascii) : bool := ascii_eqb c " "%char.
Definition is_crlf_delim (c : ascii) : bool := ascii_eqb c CR || ascii_eqb c LF.

(** [strchr(s, c)] followed by writing NUL there: the part before the first
    [c], or all of [s]. *)
Fixpoint cut_at (c : ascii) (s : cstr) : cstr :=
  match s with
  | [] => []
  | x :: s' => if ascii_eqb x c then [] else x :: cut_at c s'
  end.

(** [strchr(line, ':')] splitting the line in name and value. *)
Fixpoint split_colon (s : cstr) : option (cstr * cstr) :=
  match s with
  | [] => None
  | x :: s' =>
      if ascii_eqb x ":"%char then Some ([], s')
      else match split_colon s' with
           | None => None
           | Some (n, v) => Some (x :: n, v)
           end
  end.

(** The whitespace set of [trim_whitespace] in http_parser.c. *)
Definition is_trim_ws (c : ascii) : bool :=
  ascii_eqb c " "%char || ascii_eqb c "009"%char || ascii_eqb c CR || ascii_eqb c LF.

Fixpoint drop_ws (s : cstr) : cstr :=
  match s with
  | [] => []
  | c :: s' => if is_trim_ws c then drop_ws s' else s
  end.

(** [trim_whitespace]: skip leading whitespace, then move [end] back over
    trailing whitespace (never past [start]), then shift the result to the
    front. *)
Definition trim_whitespace (s : cstr) : cstr := rev (drop_ws (rev (drop_ws s))).

(** [strcasecmp(a, b) == 0]. *)
Definition to_lower (c : ascii) : ascii :=
  let n := nat_of_ascii c in
  if (65 <=? n)%nat && (n <=? 90)%nat then ascii_of_nat (n + 32) else c.

Definition strcaseeq (a b : cstr) : bool := cstr_eqb (map to_lower a) (map to_lower b).

(** [strtoul(nptr, &endptr, 10)] on an LP64 target (glibc): leading
    [isspace] bytes, an optional sign, decimal digits.  Without digits the
    result is 0 and [endptr == nptr]; on overflow the result is [ULONG_MAX];
    a minus sign negates modulo 2^64. *)
Definition ULONG_MAX : N := 18446744073709551615.

Definition is_c_space (c : ascii) : bool :=
  ascii_eqb c " "%char || ascii_eqb c "009"%char || ascii_eqb c LF
  || ascii_eqb c "011"%char || ascii_eqb c "012"%char || ascii_eqb c CR.

Definition is_digit (c : ascii) : bool :=
  let n := nat_of_ascii c in (48 <=? n)%nat && (n <=? 57)%nat.

Definition digit_value (c : ascii) : N := N.of_nat (nat_of_ascii c - 48).

Fixpoint skip_c_space (s : cstr) : cstr :=
  match s with
  | [] => []
  | c :: s' => if is_c_space c then skip_c_space s' else s
  end.

Fixpoint span_digits (s : cstr) : cstr * cstr :=
  match s with
  | [] => ([], [])
  | c :: s' =>
      if is_digit c then let (ds, r) := span_digits s' in (c :: ds, r) else ([], s)
  end.

Definition digits_value (ds : cstr) : N :=
  fold_left (fun acc c => acc * 10 + digit_value c)%N ds 0%N.

Definition strtoul10 (nptr : cstr) : N * cstr :=
  let s1 := skip_c_space nptr in
  let '(neg, s2) :=
    match s1 with
    | c :: t => if ascii_eqb c "-"%char then (true, t)
                else if ascii_eqb c "+"%char then (false, t) else (false, s1)
    | [] => (false, s1)
    end in
  let (ds, rest) := span_digits s2 in
  match ds with
  | [] => (0%N, nptr)
  | _ =>
      let v := digits_value ds in
      if (ULONG_MAX <? v)%N then (ULONG_MAX, rest)
      else if neg then ((N.modulo (ULONG_MAX + 1 - v) (ULONG_MAX + 1)), rest)
      else (v, rest)
  end.

(** [str_find pat s]: [strstr], the index of the first occurrence. *)
Fixpoint is_prefix (p s : cstr) : bool :=
  match p, s with
  | [], _ => true
  | _ :: _, [] => false
  | a :: p', b :: s' => ascii_eqb a b && is_prefix p' s'
  end.

Fixpoint str_find (p s : cstr) : option nat :=
  if is_prefix p s then Some O
  else match s with
       | [] => None
       | _ :: s' => option_map S (str_find p s')
       end.

(** Decimal rendering of [%zu] and [%d]. *)
Definition digit_char (d : N) : ascii := ascii_of_N (48 + d).

Fixpoint dec_aux (fuel : nat) (n : N) (acc : cstr) : cstr :=
  match fuel with
  | O => acc
  | S f =>
      let acc' := digit_char (N.modulo n 10) :: acc in
      if (N.div n 10 =? 0)%N then acc' else dec_aux f (N.div n 10) acc'
  end.

Definition N_to_dec (n : N) : cstr := dec_aux (S (N.size_nat n)) n [].

Definition Z_to_dec (z : Z) : cstr :=
  if (z <? 0)%Z then "-"%char :: N_to_dec (Z.to_N (- z)) else N_to_dec (Z.to_N z).

(** ** Requests (http_parser.h, http_parser.c) *)

Definition MAX_HEADERS : N := 64.
Definition MAX_URI_LENGTH : N := 2048.
Definition MAX_HEADER_NAME_LENGTH : N := 256.
Definition MAX_HEADER_VALUE_LENGTH : N := 8192.
Definition MAX_IDEMPOTENCY_KEY_LENGTH : N := 256.
Definition MAX_REQUEST_BODY_SIZE : N := 1048576.

Inductive http_method :=
  HTTP_METHOD_UNKNOWN | HTTP_METHOD_GET | HTTP_METHOD_POST | HTTP_METHOD_PUT
| HTTP_METHOD_DELETE | HTTP_METHOD_HEAD | HTTP_METHOD_OPTIONS | HTTP_METHOD_PATCH.

Inductive http_version := HTTP_VERSION_UNKNOWN | HTTP_VERSION_1_0 | HTTP_VERSION_1_1.

Definition http_method_eqb (a b : http_method) : bool :=
  match a, b with
  | HTTP_METHOD_UNKNOWN, HTTP_METHOD_UNKNOWN | HTTP_METHOD_GET, HTTP_METHOD_GET
  | HTTP_METHOD_POST, HTTP_METHOD_POST | HTTP_METHOD_PUT, HTTP_METHOD_PUT
  | HTTP_METHOD_DELETE, HTTP_METHOD_DELETE | HTTP_METHOD_HEAD, HTTP_METHOD_HEAD
  | HTTP_METHOD_OPTIONS, HTTP_METHOD_OPTIONS | HTTP_METHOD_PATCH, HTTP_METHOD_PATCH => true
  | _, _ => false
  end.

(** [http_request_t]; [headers] holds the first [header_count] entries of
    the C array, in order. *)
Record http_request := mk_request {
  method : http_method;
  uri : cstr;
  version : http_version;
  headers : list (cstr * cstr);
  body : cstr;
  body_length : N;
  content_length : N;
  idempotency_key : cstr;
  has_idempotency_key : bool
}.

Definition http_request_init : http_request :=
  mk_request HTTP_METHOD_UNKNOWN [] HTTP_VERSION_UNKNOWN [] [] 0 0 [] false.

Definition set_request_line (r : http_request) (m : http_method) (u : cstr)
    (v : http_version) : http_request :=
  mk_request m u v (headers r) (body r) (body_length r) (content_length r)
    (idempotency_key r) (has_idempotency_key r).

Definition set_header_fields (r : http_request) (hs : list (cstr * cstr))
    (cl : N) (k : cstr) (hk : bool) : http_request :=
  mk_request (method r) (uri r) (version r) hs (body r) (body_length r) cl k hk.

Definition set_body_fields (r : http_request) (b : cstr) : http_request :=
  mk_request (method r) (uri r) (version r) (headers r) b (N.of_nat (length b))
    (content_length r) (idempotency_key r) (has_idempotency_key r).

Definition http_string_to_method (s : cstr) : http_method :=
  if cstr_eqb s "GET" then HTTP_METHOD_GET
  else if cstr_eqb s "POST" then HTTP_METHOD_POST
  else if cstr_eqb s "PUT" then HTTP_METHOD_PUT
  else if cstr_eqb s "DELETE" then HTTP_METHOD_DELETE
  else if cstr_eqb s "HEAD" then HTTP_METHOD_HEAD
  else if cstr_eqb s "OPTIONS" then HTTP_METHOD_OPTIONS
  else if cstr_eqb s "PATCH" then HTTP_METHOD_PATCH
  else HTTP_METHOD_UNKNOWN.

Definition http_method_to_string (m : http_method) : cstr :=
  match m with
  | HTTP_METHOD_GET => "GET" | HTTP_METHOD_POST => "POST"
  | HTTP_METHOD_PUT => "PUT" | HTTP_METHOD_DELETE => "DELETE"
  | HTTP_METHOD_HEAD => "HEAD" | HTTP_METHOD_OPTIONS => "OPTIONS"
  | HTTP_METHOD_PATCH => "PATCH" | HTTP_METHOD_UNKNOWN => "UNKNOWN"
  end.

(** [parse_request_line]: [None] is the C function's [-1].  The fields it
    writes before failing are not modelled: every caller discards the
    request on failure. *)
Definition parse_request_line (request : http_request) (line : cstr)
    : option http_request :=
  (* char line_copy[MAX_URI_LENGTH + 256] *)
  if (MAX_URI_LENGTH + 256 <=? N.of_nat (length line))%N then None else
  let line_copy := cut_at LF (cut_at CR line) in
  match strtok_next is_space_delim line_copy with
  | None => None
  | Some (method_str, save1) =>
      let m := http_string_to_method method_str in
      match strtok_next is_space_delim save1 with
      | None => None
      | Some (uri_str, save2) =>
          match uri_str with
          | [] => None
          | c0 :: _ =>
              if negb (ascii_eqb c0 "/"%char) then None
              else if (MAX_URI_LENGTH <=? N.of_nat (length uri_str))%N then None
              else
                let u := firstn (N.to_nat (MAX_URI_LENGTH - 1)) uri_str in
                match strtok_next is_space_delim save2 with
                | None => None
                | Some (version_str, _) =>
                    (* an extra token is only logged *)
                    if cstr_eqb version_str "HTTP/1.1" then
                      Some (set_request_line request m u HTTP_VERSION_1_1)
                    else if cstr_eqb version_str "HTTP/1.0" then
                      Some (set_request_line request m u HTTP_VERSION_1_0)
                    else None
                end
          end
      end
  end.

(** The header fields [parse_headers] works on. *)
Record header_state := mk_hstate {
  hs_headers : list (cstr * cstr);
  hs_content_length : N;
  hs_key : cstr;
  hs_has_key : bool
}.

Definition hstate_init : header_state := mk_hstate [] 0 [] false.

(** One iteration of the [while (line != NULL)] loop of [parse_headers] on a
    line holding a colon: [Some st'] continues, [None] is [return -1]. *)
Definition parse_header_line (st : header_state) (name0 value0 : cstr)
    : option (option header_state) :=
  let name := trim_whitespace name0 in
  let value := trim_whitespace value0 in
  if (length name =? 0)%nat then Some None        (* empty name: skipped *)
  else if (MAX_HEADER_NAME_LENGTH <=? N.of_nat (length name))%N then None
  else
    let value :=
      if (MAX_HEADER_VALUE_LENGTH <=? N.of_nat (length value))%N
      then firstn (N.to_nat (MAX_HEADER_VALUE_LENGTH - 1)) value else value in
    if (MAX_HEADERS <=? N.of_nat (length (hs_headers st)))%N then None
    else
      let hs := hs_headers st ++
                  [(firstn (N.to_nat (MAX_HEADER_NAME_LENGTH - 1)) name,
                    firstn (N.to_nat (MAX_HEADER_VALUE_LENGTH - 1)) value)] in
      (* X-Idempotency-Key: the value is cut in place before the copy *)
      let '(value, key, has_key) :=
        if strcaseeq name "X-Idempotency-Key" then
          let value :=
            if (MAX_IDEMPOTENCY_KEY_LENGTH <=? N.of_nat (length value))%N
            then firstn (N.to_nat (MAX_IDEMPOTENCY_KEY_LENGTH - 1)) value else value in
          (value, firstn (N.to_nat (MAX_IDEMPOTENCY_KEY_LENGTH - 1)) value, true)
        else (value, hs_key st, hs_has_key st) in
      let cl :=
        if strcaseeq name "Content-Length" then
          let (content_len, endptr) := strtoul10 value in
          match endptr with [] => content_len | _ => 0%N end
        else hs_content_length st in
      Some (Some (mk_hstate hs cl key has_key)).

Fixpoint parse_header_lines (st : header_state) (lines : list cstr)
    : option header_state :=
  match lines with
  | [] => Some st
  | line :: rest =>
      if (length line =? 0)%nat then Some st
      else
        match split_colon line with
        | None => parse_header_lines st rest          (* missing colon *)
        | Some (name, value) =>
            match parse_header_line st name value with
            | None => None
            | Some None => parse_header_lines st rest
            | Some (Some st') => parse_header_lines st' rest
            end
        end
  end.

Definition parse_headers (request : http_request) (header_section : cstr)
    : option http_request :=
  match parse_header_lines hstate_init (strtok_all is_crlf_delim header_section) with
  | None => None
  | Some st =>
      Some (set_header_fields request (hs_headers st) (hs_content_length st)
              (hs_key st) (hs_has_key st))
  end.

(** ** Responses (http_response.h, http_response.c) *)

Definition HTTP_OK : Z := 200.
Definition HTTP_BAD_REQUEST : Z := 400.
Definition HTTP_NOT_FOUND : Z := 404.
Definition HTTP_CONFLICT : Z := 409.
Definition HTTP_PAYLOAD_TOO_LARGE : Z := 413.
Definition HTTP_UNPROCESSABLE : Z := 422.
Definition HTTP_INTERNAL_ERROR : Z := 500.
Definition HTTP_NOT_IMPLEMENTED : Z := 501.

(** [http_response_t]; [body_length] is the length of [resp_body] (the
    setter keeps them together). *)
Record http_response := mk_response {
  status_code : Z;
  status_message : cstr;
  resp_headers : list (cstr * cstr);
  resp_body : cstr
}.

Definition status_code_to_message (code : Z) : cstr :=
  if (code =? HTTP_OK)%Z then "OK"
  else if (code =? HTTP_BAD_REQUEST)%Z then "Bad Request"
  else if (code =? HTTP_NOT_FOUND)%Z then "Not Found"
  else if (code =? HTTP_CONFLICT)%Z then "Conflict"
  else if (code =? HTTP_PAYLOAD_TOO_LARGE)%Z then "Payload Too Large"
  else if (code =? HTTP_UNPROCESSABLE)%Z then "Unprocessable Entity"
  else if (code =? HTTP_INTERNAL_ERROR)%Z then "Internal Server Error"
  else if (code =? HTTP_NOT_IMPLEMENTED)%Z then "Not Implemented"
  else "Unknown".

Definition http_response_init (code : Z) : http_response :=
  mk_response code (status_code_to_message code) [] [].

Definition http_response_add_header (r : http_response) (name value : cstr)
    : http_response :=
  mk_response (status_code r) (status_message r) (resp_headers r ++ [(name, value)])
    (resp_body r).

Definition http_response_set_body (r : http_response) (b : cstr) : http_response :=
  mk_response (status_code r) (status_message r) (resp_headers r) b.

(** The JSON error body written by [http_response_create_error]. *)
Definition error_json (error_message : cstr) (code : Z) : cstr :=
  "{" ++ [DQ] ++ "error" ++ [DQ] ++ ":" ++ [DQ] ++ error_message ++ [DQ]
  ++ "," ++ [DQ] ++ "status" ++ [DQ] ++ ":" ++ Z_to_dec code
  ++ "," ++ [DQ] ++ "message" ++ [DQ] ++ ":" ++ [DQ]
  ++ status_code_to_message code ++ [DQ] ++ "}".

(** [http_response_create_error].  Its 1024-byte check on the formatted
    body does not fire for the fixed messages [connection_handle] passes
    (all shorter than 60 bytes), so the function is total here. *)
Definition http_response_create_error (code : Z) (error_message : cstr)
    : http_response :=
  http_response_set_body
    (http_response_add_header (http_response_init code) "Content-Type" "application/json")
    (error_json error_message code).

(** One [snprintf(buffer + offset, estimated_size - offset, ...)] with its
    truncation check [written >= estimated_size - offset]. *)
Definition snprintf_at (estimated_size offset : N) (piece : cstr) : option N :=
  if (estimated_size - offset <=? N.of_nat (length piece))%N then None
  else Some (offset + N.of_nat (length piece))%N.

Fixpoint snprintf_all (estimated_size offset : N) (pieces : list cstr) : option N :=
  match pieces with
  | [] => Some offset
  | p :: ps =>
      match snprintf_at estimated_size offset p with
      | None => None
      | Some off => snprintf_all estimated_size off ps
      end
  end.

Definition status_line (r : http_response) : cstr :=
  "HTTP/1.1 " ++ Z_to_dec (status_code r) ++ " " ++ status_message r ++ crlf.

Definition server_line : cstr := "Server: C-HTTP-Payment-Server/1.0" ++ crlf.

Definition header_line (h : cstr * cstr) : cstr := fst h ++ ": " ++ snd h ++ crlf.

(** The pieces written by successive [snprintf] calls, in order: status
    line, Server, Date (the [strftime] output [date]), Content-Length, the
    caller's headers, the blank line. *)
Definition serialize_pieces (date : cstr) (r : http_response) : list cstr :=
  [status_line r; server_line; "Date: " ++ date ++ crlf;
   "Content-Length: " ++ N_to_dec (N.of_nat (length (resp_body r))) ++ crlf]
  ++ map header_line (resp_headers r) ++ [crlf].

(** [http_response_serialize]: [None] is the NULL return. *)
Definition http_response_serialize (date : cstr) (r : http_response) : option cstr :=
  let body_length := N.of_nat (length (resp_body r)) in
  let estimated_size := (1024 + body_length)%N in
  let pieces := serialize_pieces date r in
  match snprintf_all estimated_size 0%N pieces with
  | None => None
  | Some offset =>
      match resp_body r with
      | [] => Some (concat pieces)
      | _ =>
          if (estimated_size <? offset + body_length)%N then None
          else Some (concat pieces ++ resp_body r)
      end
  end.

(** ** The connection pipeline ([connection_handle], src/src/connection.c) *)

Definition CONN_BUFFER_SIZE : N := 8192.

(** Modelled from the spec: [parse_request_body], called by
    [connection_handle] but defined nowhere in the repository.  Section 4.4:
    the body bytes are read from the connection up to exactly
    [Content-Length]; a short read is a failure.  [stream] is what the
    connection delivers after the buffered header bytes. *)
Definition parse_request_body_spec (stream : cstr) (request : http_request)
    : option cstr :=
  let n := N.to_nat (content_length request) in
  if (n <=? length stream)%nat then Some (firstn n stream) else None.

(** Steps 2 to 5 of [connection_handle]: split the buffer, parse the
    request line, the headers and the body.  [inl r] is the error response
    built before [goto send_response]; [inr request] a parsed request.
    [read_body] stands for [parse_request_body]. *)
Definition parse_stage (read_body : http_request -> option cstr) (buffer : cstr)
    : http_response + http_request :=
  match str_find (crlf ++ crlf) buffer with
  | None => inl (http_response_create_error HTTP_BAD_REQUEST "Malformed HTTP request")
  | Some headers_end =>
      (* *headers_end = '\0' *)
      let head := firstn headers_end buffer in
      match str_find crlf head with
      | None => inl (http_response_create_error HTTP_BAD_REQUEST "Malformed request line")
      | Some line_end =>
          let request_line := firstn line_end head in
          let headers_start := skipn (line_end + 2) head in
          match parse_request_line http_request_init request_line with
          | None => inl (http_response_create_error HTTP_BAD_REQUEST "Invalid request line")
          | Some request =>
              match parse_headers request headers_start with
              | None => inl (http_response_create_error HTTP_BAD_REQUEST "Invalid headers")
              | Some request =>
                  if (0 <? content_length request)%N then
                    if (MAX_REQUEST_BODY_SIZE <? content_length request)%N then
                      inl (http_response_create_error HTTP_PAYLOAD_TOO_LARGE
                             "Request body exceeds 1MB limit")
                    else match read_body request with
                         | None => inl (http_response_create_error HTTP_BAD_REQUEST
                                          "Failed to read request body")
                         | Some b => inr (set_body_fields request b)
                         end
                  else inr request
              end
          end
      end
  end.

(** The body of the success response of step 7. *)
Definition success_body (request : http_request) : cstr :=
  if http_method_eqb (method request) HTTP_METHOD_POST && has_idempotency_key request then
    "{" ++ [DQ] ++ "status" ++ [DQ] ++ ":" ++ [DQ] ++ "success" ++ [DQ]
    ++ "," ++ [DQ] ++ "message" ++ [DQ] ++ ":" ++ [DQ] ++ "Payment processed" ++ [DQ]
    ++ "," ++ [DQ] ++ "idempotency_key" ++ [DQ] ++ ":" ++ [DQ] ++ idempotency_key request ++ [DQ]
    ++ "," ++ [DQ] ++ "body_size" ++ [DQ] ++ ":" ++ N_to_dec (body_length request) ++ "}"
  else
    "{" ++ [DQ] ++ "status" ++ [DQ] ++ ":" ++ [DQ] ++ "success" ++ [DQ]
    ++ "," ++ [DQ] ++ "message" ++ [DQ] ++ ":" ++ [DQ] ++ "Request received" ++ [DQ]
    ++ "," ++ [DQ] ++ "method" ++ [DQ] ++ ":" ++ [DQ] ++ http_method_to_string (method request) ++ [DQ]
    ++ "," ++ [DQ] ++ "uri" ++ [DQ] ++ ":" ++ [DQ] ++ uri request ++ [DQ] ++ "}".

(** Step 7, "Generate success response": the place where the request is
    acted upon (the handler of the design). *)
Definition generate_success_response (request : http_request) : http_response :=
  let r := http_response_add_header (http_response_init HTTP_OK)
             "Content-Type" "application/json" in
  let response_body := success_body request in
  if (1024 <=? N.of_nat (length response_body))%N
  then http_response_create_error HTTP_INTERNAL_ERROR "Failed to format response"
  else http_response_set_body r response_body.

(** What [connection_handle] does with one connection: [ConnClosed] is the
    [return -1] before any response is built; [ConnResponse r ran] the
    response it goes on to serialize and send, [ran] telling whether step 7
    (the handler) ran. *)
Inductive conn_result :=
| ConnClosed
| ConnResponse (r : http_response) (handler_ran : bool).

(** [received] is what [recv] put in the buffer (at most
    [CONN_BUFFER_SIZE - 1] bytes). *)
Definition connection_handle (read_body : http_request -> option cstr)
    (received : cstr) : conn_result :=
  match received with
  | [] => ConnClosed
  | _ =>
      match parse_stage read_body (c_string received) with
      | inl err => ConnResponse err false
      | inr request =>
          if http_method_eqb (method request) HTTP_METHOD_POST
             && negb (has_idempotency_key request) then
            ConnResponse (http_response_create_error HTTP_UNPROCESSABLE
                            "POST requests require X-Idempotency-Key header") false
          else ConnResponse (generate_success_response request) true
      end
  end.

(** The bytes [connection_handle] writes to the socket ([None]: nothing is
    written). *)
Definition connection_output (date : cstr) (read_body : http_request -> option cstr)
    (received : cstr) : option cstr :=
  match connection_handle read_body received with
  | ConnClosed => None
  | ConnResponse r _ => http_response_serialize date r
  end.

(** Connections served one after the other. *)
Definition serve_sequence (read_body : http_request -> option cstr)
    (conns : list cstr) : list conn_result :=
  map (connection_handle read_body) conns.

Definition handler_invocations (rs : list conn_result) : nat :=
  length (filter (fun r => match r with ConnResponse _ true => true | _ => false end) rs).

(** ** The task queue (task_queue.c)

    The linked list [head .. tail] is the list [tq_items]; [count] and
    [max_size] are the C [int] fields.  Each operation is one critical
    section under the queue mutex.  A thread that would call
    [pthread_cond_wait] is reported as waiting, with the queue unchanged; when
    it is woken it runs the same checks again, so a retry is another call of
    the same operation. *)
Module TaskQueue.

Record task_queue := mk_queue {
  tq_items : list Z;
  tq_count : Z;
  tq_max_size : Z;
  tq_shutdown : bool
}.

Definition task_queue_init (max_size : Z) : task_queue := mk_queue [] 0 max_size false.

Inductive enqueue_result :=
| EnqDone (q : task_queue)
| EnqWait
| EnqRefused.

Definition task_queue_enqueue (q : task_queue) (client_fd : Z) : enqueue_result :=
  if tq_shutdown q then EnqRefused
  else if (0 <? tq_max_size q)%Z && (tq_max_size q <=? tq_count q)%Z then EnqWait
  else EnqDone (mk_queue (tq_items q ++ [client_fd]) (tq_count q + 1)
                  (tq_max_size q) (tq_shutdown q)).

Inductive dequeue_result :=
| DeqTask (client_fd : Z) (q : task_queue)
| DeqWait
| DeqShutdown
| DeqFault.   (* [task->next] on a NULL head *)

Definition task_queue_dequeue (q : task_queue) : dequeue_result :=
  if (tq_count q =? 0)%Z && negb (tq_shutdown q) then DeqWait
  else if tq_shutdown q && (tq_count q =? 0)%Z then DeqShutdown
  else match tq_items q with
       | [] => DeqFault
       | fd :: rest =>
           DeqTask fd (mk_queue rest (tq_count q - 1) (tq_max_size q) (tq_shutdown q))
       end.

Definition task_queue_shutdown (q : task_queue) : task_queue :=
  mk_queue (tq_items q) (tq_count q) (tq_max_size q) true.

Inductive op := OpEnqueue (client_fd : Z) | OpDequeue | OpShutdown.

Inductive event :=
| EvEnqueued (client_fd : Z)
| EvEnqueueWaits
| EvEnqueueRefused
| EvDelivered (client_fd : Z)
| EvDequeueWaits
| EvShutdownReported
| EvFault
| EvShutdownSignaled.

Definition step (q : task_queue) (o : op) : task_queue * event :=
  match o with
  | OpEnqueue fd =>
      match task_queue_enqueue q fd with
      | EnqDone q' => (q', EvEnqueued fd)
      | EnqWait => (q, EvEnqueueWaits)
      | EnqRefused => (q, EvEnqueueRefused)
      end
  | OpDequeue =>
      match task_queue_dequeue q with
      | DeqTask fd q' => (q', EvDelivered fd)
      | DeqWait => (q, EvDequeueWaits)
      | DeqShutdown => (q, EvShutdownReported)
      | DeqFault => (q, EvFault)
      end
  | OpShutdown => (task_queue_shutdown q, EvShutdownSignaled)
  end.

Fixpoint run (q : task_queue) (ops : list op) : task_queue * list event :=
  match ops with
  | [] => (q, [])
  | o :: ops' =>
      let (q1, e) := step q o in
      let (q2, es) := run q1 ops' in (q2, e :: es)
  end.

Definition accepted (es : list event) : list Z :=
  flat_map (fun e => match e with EvEnqueued fd => [fd] | _ => [] end) es.

Definition delivered (es : list event) : list Z :=
  flat_map (fun e => match e with EvDelivered fd => [fd] | _ => [] end) es.

(** [task_queue_size]: [count], read under the mutex. *)
Definition task_queue_size (q : task_queue) : Z := tq_count q.

End TaskQueue.

(** ** More of http_parser.c, http_response.c and connection.c *)

(** [http_get_header]: the loop over the first [header_count] headers,
    returning the value of the first whose name equals [name] under
    [strcasecmp]; [None] is NULL. *)
Fixpoint find_header (hs : list (cstr * cstr)) (name : cstr) : option cstr :=
  match hs with
  | [] => None
  | h :: hs' => if strcaseeq (fst h) name then Some (snd h) else find_header hs' name
  end.

Definition http_get_header (request : http_request) (name : cstr) : option cstr :=
  find_header (headers request) name.

(** [http_response_create_error] with the check on its formatted body:
    [snprintf] into [char error_body[1024]] returns the full length of the
    JSON text, and a length of 1024 or more makes the function free the
    response and return -1 ([None]). *)
Definition http_response_create_error_checked (code : Z) (error_message : cstr)
    : option http_response :=
  if (1024 <=? N.of_nat (length (error_json error_message code)))%N then None
  else Some (http_response_create_error code error_message).

(** [connection_write]: [sent] is what [send] returns for this call (a
    negative value for any of the error cases, all of which return -1). *)
Definition connection_write (data : cstr) (sent : Z) : Z :=
  match data with
  | [] => -1
  | _ => if (sent <? 0)%Z then -1 else sent
  end.

(** Step 8 of [connection_handle], the loop sending [serialized]:
    [while (total_sent < serialized_length)] one [connection_write] of the
    bytes from [total_sent] on; a negative result sets [result = -1] and
    breaks.  [sends] are the results of the successive [send] calls;
    [SendPending] means the calls listed ran out with bytes still to send.
    The first component lists, call by call, the bytes [send] took: the
    first [bytes_sent] of those it was handed. *)
Inductive send_status := SendDone | SendFailed | SendPending.

Fixpoint send_loop (sends : list Z) (serialized : cstr) (total_sent : nat)
    : list cstr * send_status :=
  if (total_sent <? length serialized)%nat then
    match sends with
    | [] => ([], SendPending)
    | s :: ss =>
        let data := skipn total_sent serialized in
        let bytes_sent := connection_write data s in
        if (bytes_sent <? 0)%Z then ([], SendFailed)
        else
          let (chunks, st) := send_loop ss serialized (total_sent + Z.to_nat bytes_sent) in
          (firstn (Z.to_nat bytes_sent) data :: chunks, st)
    end
  else ([], SendDone).

(** ** Readings of the specification, to compare with the code *)

(** A header line as [parse_headers] reads it: split at the first colon,
    both sides trimmed; no colon or an empty name gives no header. *)
Definition header_entry (line : cstr) : option (cstr * cstr) :=
  match split_colon line with
  | None => None
  | Some (n, v) =>
      let name := trim_whitespace n in
      if (length name =? 0)%nat then None else Some (name, trim_whitespace v)
  end.

Definition header_entries (header_section : cstr) : list (cstr * cstr) :=
  flat_map (fun l => match header_entry l with Some e => [e] | None => [] end)
    (split_tokens is_crlf_delim header_section).

(** Lines joined by CRLF (no trailing CRLF). *)
Fixpoint join_lines (ls : list cstr) : cstr :=
  match ls with
  | [] => []
  | [l] => l
  | l :: ls' => l ++ crlf ++ join_lines ls'
  end.

(** The layout of a serialized response as section 4.4 describes it. *)
Definition header_block (date : cstr) (r : http_response) : cstr :=
  "HTTP/1.1 " ++ Z_to_dec (status_code r) ++ " " ++ status_message r ++ crlf
  ++ "Server: C-HTTP-Payment-Server/1.0" ++ crlf
  ++ "Date: " ++ date ++ crlf
  ++ "Content-Length: " ++ N_to_dec (N.of_nat (length (resp_body r))) ++ crlf
  ++ concat (map (fun h => fst h ++ ": " ++ snd h ++ crlf) (resp_headers r))
  ++ crlf.

Definition expected_serialization (date : cstr) (r : http_response) : cstr :=
  header_block date r ++ resp_body r.

(** A client reading a response the way [connection_handle] reads a
    request: split at the first blank line, take the status line, read the
    status code as its second token, parse the header lines with
    [parse_headers], and keep everything after the blank line as the body. *)
Definition client_parse_response (out : cstr) : option (Z * list (cstr * cstr) * cstr) :=
  match str_find (crlf ++ crlf) out with
  | None => None
  | Some i =>
      let head := firstn i out in
      let rbody := skipn (i + 4) out in
      match str_find crlf head with
      | None => None
      | Some j =>
          let sline := firstn j head in
          let section := skipn (j + 2) head in
          match split_tokens is_space_delim sline with
          | _ :: code :: _ =>
              match strtoul10 code with
              | (v, []) =>
                  match parse_headers http_request_init section with
                  | None => None
                  | Some rq => Some (Z.of_N v, headers rq, rbody)
                  end
              | _ => None
              end
          | _ => None
          end
      end
  end.

(** Bytes that may stand inside one header line. *)
Definition line_safe (s : cstr) : Prop := ~ In CR s /\ ~ In LF s.

(** No leading or trailing space, tab, CR or LF. *)
Definition trimmed (s : cstr) : Prop := drop_ws s = s /\ drop_ws (rev s) = rev s.

Definition wf_header (h : cstr * cstr) : Prop :=
  fst h <> [] /\ ~ In ":"%char (fst h) /\ line_safe (fst h) /\ trimmed (fst h)
  /\ (N.of_nat (length (fst h)) < MAX_HEADER_NAME_LENGTH)%N
  /\ line_safe (snd h) /\ trimmed (snd h)
  /\ (N.of_nat (length (snd h)) < MAX_HEADER_VALUE_LENGTH)%N.

(** The responses the round trip is stated for: a non-negative status code
    an [int] holds, a status message without CR or LF, header names and
    values the request parser keeps as they are (non-empty colon-free
    trimmed names, trimmed values, no CR or LF, within its length bounds), at
    most 61 caller headers (64 minus the three injected ones), and a body
    whose length a [size_t] holds. *)
Definition wf_response (date : cstr) (r : http_response) : Prop :=
  (0 <= status_code r <= 2147483647)%Z /\ line_safe (status_message r)
  /\ wf_header ("Date" : cstr, date) /\ Forall wf_header (resp_headers r)
  /\ (length (resp_headers r) <= 61)%nat
  /\ (N.of_nat (length (resp_body r)) <= ULONG_MAX)%N.

Definition injected_headers (date : cstr) (r : http_response) : list (cstr * cstr) :=
  [("Server" : cstr, "C-HTTP-Payment-Server/1.0" : cstr); ("Date" : cstr, date);
   ("Content-Length" : cstr, N_to_dec (N.of_nat (length (resp_body r))))].

(** ** Sample inputs *)

Definition long_key : cstr := repeat "a"%char 300.

Definition key_section_long : cstr :=
  "X-Idempotency-Key: " ++ long_key ++ crlf ++ "Host: x" ++ crlf.

Definition key_section_override : cstr :=
  "X-Idempotency-Key: " ++ long_key ++ crlf ++ "X-Idempotency-Key: abc" ++ crlf.

Definition key_section_long_name : cstr :=
  "X-Idempotency-Key: " ++ long_key ++ crlf ++ repeat "N"%char 256 ++ ": v" ++ crlf.

(** A request line whose three first tokens are valid, followed by a long
    fourth token. *)
Definition long_request_line : cstr :=
  "GET / HTTP/1.1 " ++ repeat "x"%char 2300.

(** Header sections with a negative and with an out of range
    [Content-Length], and one with a valid value. *)
Definition cl_negative_section : cstr := "Content-Length: -5" ++ crlf.
Definition cl_overflow_section : cstr := "Content-Length: 99999999999999999999" ++ crlf.
Definition cl_valid_section : cstr := "Content-Length: 42" ++ crlf.

(** Requests as a client sends them. *)
Definition post_no_key_request : cstr :=
  "POST /payment HTTP/1.1" ++ crlf ++ "Host: x" ++ crlf ++ crlf.

Definition post_with_key_request : cstr :=
  "POST /payment HTTP/1.1" ++ crlf ++ "X-Idempotency-Key: abc123" ++ crlf ++ crlf.

Definition unknown_method_request : cstr :=
  "FOO / HTTP/1.1" ++ crlf ++ "Host: x" ++ crlf ++ crlf.

(** The body reader used with these requests: no bytes follow the headers. *)
Definition no_body : http_request -> option cstr := parse_request_body_spec [].

(** A [strftime] date and a response with one long custom header. *)
Definition sample_date : cstr := "Sun, 18 Oct 2026 12:00:00 GMT".

Definition big_header_response : http_response :=
  mk_response 200 "OK" [("X-Big" : cstr, repeat "v"%char 1100)] "ok".

(** Responses to serialize and read back. *)
Definition json_response : http_response :=
  mk_response 200 "OK" [("Content-Type" : cstr, "application/json" : cstr)] "{}".

Definition spaced_value_response : http_response :=
  mk_response 200 "OK" [("X-Note" : cstr, " padded" : cstr)] "ok".

Definition many_headers_response : http_response :=
  mk_response 200 "OK" (repeat ("X-A" : cstr, "1" : cstr) 62) [].

(** * Proofs *)

(** ** strtok_r and the token list *)

Lemma ascii_eqb_true a b : ascii_eqb a b = true <-> a = b.
Proof. unfold ascii_eqb; destruct (ascii_dec a b); split; congruence. Qed.

Lemma ascii_eqb_refl a : ascii_eqb a a = true.
Proof. apply ascii_eqb_true; reflexivity. Qed.

Lemma cstr_eqb_true a b : cstr_eqb a b = true <-> a = b.
Proof. unfold cstr_eqb; destruct (list_eq_dec ascii_dec a b); split; congruence. Qed.

Lemma split_tokens_skip d s :
  split_tokens_acc d [] (skip_delims d s) = split_tokens_acc d [] s.
Proof.
  induction s as [|c s IH]; simpl; [reflexivity|].
  destruct (d c) eqn:Hc; simpl; rewrite ?Hc; [exact IH|reflexivity].
Qed.

Lemma split_tokens_take d s cur :
  split_tokens_acc d cur s =
  let (t, r) := take_token d s in
  match rev cur ++ t with
  | [] => split_tokens_acc d [] (tl r)
  | w => w :: split_tokens_acc d [] (tl r)
  end.
Proof.
  revert cur; induction s as [|c s IH]; intro cur; simpl.
  - destruct cur as [|a cur]; simpl; [reflexivity|].
    rewrite app_nil_r; destruct (rev cur ++ [a]) eqn:E; [|reflexivity].
    apply (f_equal (@length ascii)) in E; rewrite length_app in E; simpl in E; lia.
  - destruct (d c) eqn:Hc.
    + simpl; rewrite app_nil_r.
      destruct cur as [|a cur]; simpl; [reflexivity|].
      destruct (rev cur ++ [a]) eqn:E; [|reflexivity].
      apply (f_equal (@length ascii)) in E; rewrite length_app in E; simpl in E; lia.
    + rewrite IH; destruct (take_token d s) as [t r]; simpl.
      rewrite <- app_assoc; reflexivity.
Qed.

Lemma skip_delims_head d s c s' : skip_delims d s = c :: s' -> d c = false.
Proof.
  induction s as [|x s IH]; simpl; [discriminate|].
  destruct (d x) eqn:Hx; [exact IH|]. intros H; inversion H; subst; exact Hx.
Qed.

Lemma skip_delims_length d s : (length (skip_delims d s) <= length s)%nat.
Proof. induction s as [|x s IH]; simpl; [lia|]. destruct (d x); simpl; lia. Qed.

Lemma take_token_length d s :
  let (t, r) := take_token d s in length t + length r = length s.
Proof.
  induction s as [|x s IH]; simpl; [reflexivity|].
  destruct (d x); [reflexivity|]. destruct (take_token d s); simpl; lia.
Qed.

(** One [strtok_r] call returns the first token, and the save pointer holds
    the remaining tokens. *)
Lemma strtok_next_tokens d s :
  match strtok_next d s with
  | None => split_tokens d s = []
  | Some (t, r) => split_tokens d s = t :: split_tokens d r /\ t <> []
                   /\ (length r < length s)%nat
  end.
Proof.
  unfold strtok_next, split_tokens.
  rewrite <- split_tokens_skip.
  pose proof (skip_delims_length d s) as Hlen.
  destruct (skip_delims d s) as [|c s1] eqn:Hs; [reflexivity|].
  pose proof (skip_delims_head _ _ _ _ Hs) as Hc.
  pose proof (take_token_length d (c :: s1)) as Hl.
  rewrite split_tokens_take. simpl in Hl |- *. rewrite Hc in Hl |- *.
  destruct (take_token d s1) as [t r]; simpl in Hl |- *.
  split; [destruct r; reflexivity|]. split; [discriminate|].
  destruct r; simpl in *; lia.
Qed.

Lemma strtok_iter_tokens d fuel s :
  (length s < fuel)%nat -> strtok_iter d fuel s = split_tokens d s.
Proof.
  revert s; induction fuel as [|f IH]; intros s Hs; [lia|].
  simpl. pose proof (strtok_next_tokens d s) as H.
  destruct (strtok_next d s) as [[t r]|]; [|symmetry; exact H].
  destruct H as [H1 [_ H3]]. rewrite H1, IH; [reflexivity|lia].
Qed.

Lemma strtok_all_tokens d s : strtok_all d s = split_tokens d s.
Proof. apply strtok_iter_tokens; lia. Qed.

Lemma split_tokens_acc_nonempty d cur s :
  Forall (fun t => t <> []) (split_tokens_acc d cur s).
Proof.
  revert cur; induction s as [|c s IH]; intro cur; simpl.
  - destruct cur as [|a cur]; constructor; [|constructor].
    intro E; apply (f_equal (@length ascii)) in E; simpl in E;
      rewrite length_app in E; simpl in E; lia.
  - destruct (d c); [|apply IH].
    destruct cur as [|a cur]; [apply IH|]. constructor; [|apply IH].
    intro E; apply (f_equal (@length ascii)) in E; simpl in E;
      rewrite length_app in E; simpl in E; lia.
Qed.

(** Scanning a run of non-delimiters only extends the current token. *)
Lemma split_tokens_acc_app_plain d cur l s :
  (forall c, In c l -> d c = false) ->
  split_tokens_acc d cur (l ++ s) = split_tokens_acc d (rev l ++ cur) s.
Proof.
  revert cur; induction l as [|c l IH]; intros cur Hl; simpl; [reflexivity|].
  rewrite (Hl c (or_introl eq_refl)). rewrite IH; [|intros; apply Hl; right; assumption].
  rewrite <- app_assoc; reflexivity.
Qed.

(** ** The request line *)

Lemma firstn_short {A} n (l : list A) : (length l <= n)%nat -> firstn n l = l.
Proof. intros; apply firstn_all2; lia. Qed.

(** C4, as the code has it. [parse_request_line] succeeds exactly when the
    whole line is shorter than 2304 bytes (the size of its [line_copy]
    buffer) and, once cut at the first CR and then the first LF, it splits on
    spaces into at least three tokens, the second starting with '/' and
    shorter than 2048 bytes, the third exactly [HTTP/1.1] or [HTTP/1.0];
    further tokens are ignored, and the result records the method, the URI
    and that version. *)
Theorem parse_request_line_characterization request line r :
  parse_request_line request line = Some r <->
  (N.of_nat (length line) < MAX_URI_LENGTH + 256)%N /\
  exists m u v rest,
    split_tokens is_space_delim (cut_at LF (cut_at CR line)) = m :: u :: v :: rest /\
    hd_error u = Some "/"%char /\ (N.of_nat (length u) < MAX_URI_LENGTH)%N /\
    ((v = "HTTP/1.1" /\
      r = set_request_line request (http_string_to_method m) u HTTP_VERSION_1_1) \/
     (v = "HTTP/1.0" /\
      r = set_request_line request (http_string_to_method m) u HTTP_VERSION_1_0)).
Proof.
  unfold parse_request_line.
  destruct (N.leb_spec (MAX_URI_LENGTH + 256) (N.of_nat (length line))) as [Hl|Hl].
  { split; [discriminate|]. intros [H _]; lia. }
  set (lc := cut_at LF (cut_at CR line)).
  pose proof (strtok_next_tokens is_space_delim lc) as T1.
  destruct (strtok_next is_space_delim lc) as [[m s1]|] eqn:E1.
  2:{ split; [discriminate|]. intros [_ (m & u & v & rest & Ht & _)].
      rewrite T1 in Ht; discriminate. }
  destruct T1 as [T1 _].
  pose proof (strtok_next_tokens is_space_delim s1) as T2.
  destruct (strtok_next is_space_delim s1) as [[u s2]|] eqn:E2.
  2:{ split; [discriminate|]. intros [_ (m' & u & v & rest & Ht & _)].
      rewrite T1, T2 in Ht; discriminate. }
  destruct T2 as [T2 [Hu _]].
  destruct u as [|c0 u']; [contradiction|].
  destruct (ascii_eqb c0 "/"%char) eqn:Hc0; simpl negb; cbv iota.
  2:{ split; [discriminate|]. intros [_ (m' & u & v & rest & Ht & Hh & _)].
      rewrite T1, T2 in Ht. inversion Ht; subst. simpl in Hh. inversion Hh; subst.
      rewrite ascii_eqb_refl in Hc0; discriminate. }
  apply ascii_eqb_true in Hc0; subst c0.
  destruct (N.leb_spec MAX_URI_LENGTH (N.of_nat (length ("/"%char :: u')))) as [Hu'|Hu'].
  { split; [discriminate|]. intros [_ (m' & u & v & rest & Ht & _ & Hlu & _)].
    rewrite T1, T2 in Ht. inversion Ht; subst. lia. }
  rewrite (firstn_short (N.to_nat (MAX_URI_LENGTH - 1))) by (unfold MAX_URI_LENGTH in *; lia).
  pose proof (strtok_next_tokens is_space_delim s2) as T3.
  destruct (strtok_next is_space_delim s2) as [[v s3]|] eqn:E3.
  2:{ split; [discriminate|]. intros [_ (m' & u & v & rest & Ht & _)].
      rewrite T1, T2, T3 in Ht; discriminate. }
  destruct T3 as [T3 _].
  split.
  - intros H. split; [exact Hl|].
    exists m, ("/"%char :: u'), v, (split_tokens is_space_delim s3).
    rewrite T1, T2, T3. split; [reflexivity|]. split; [reflexivity|]. split; [exact Hu'|].
    destruct (cstr_eqb v "HTTP/1.1") eqn:V1.
    + apply cstr_eqb_true in V1. left. inversion H; auto.
    + destruct (cstr_eqb v "HTTP/1.0") eqn:V2; [|discriminate].
      apply cstr_eqb_true in V2. right. inversion H; auto.
  - intros [_ (m' & u & v' & rest & Ht & _ & _ & Hv)].
    rewrite T1, T2, T3 in Ht. inversion Ht; subst m' u v'.
    destruct Hv as [[-> ->]|[-> ->]]; reflexivity.
Qed.


(** ** Header lines *)

Lemma strcaseeq_key_not_cl n :
  strcaseeq n "X-Idempotency-Key" = true -> strcaseeq n "Content-Length" = false.
Proof.
  unfold strcaseeq; intros H. apply cstr_eqb_true in H.
  destruct (cstr_eqb (map to_lower n) (map to_lower "Content-Length")) eqn:E; [|reflexivity].
  apply cstr_eqb_true in E. rewrite H in E. discriminate.
Qed.

Lemma firstn_value_trunc (v : cstr) :
  (if (MAX_HEADER_VALUE_LENGTH <=? N.of_nat (length v))%N
   then firstn (N.to_nat (MAX_HEADER_VALUE_LENGTH - 1)) v else v)
  = firstn (N.to_nat (MAX_HEADER_VALUE_LENGTH - 1)) v.
Proof.
  destruct (N.leb_spec MAX_HEADER_VALUE_LENGTH (N.of_nat (length v))); [reflexivity|].
  rewrite firstn_short; [reflexivity|]. unfold MAX_HEADER_VALUE_LENGTH in *; lia.
Qed.

Lemma firstn_firstn_le {A} (l : list A) m n : (m <= n)%nat -> firstn m (firstn n l) = firstn m l.
Proof. intros; rewrite firstn_firstn; f_equal; lia. Qed.

Lemma parse_header_line_skip st n0 v0 :
  trim_whitespace n0 = [] -> parse_header_line st n0 v0 = Some None.
Proof. intros H; unfold parse_header_line; rewrite H; reflexivity. Qed.

Lemma parse_header_line_fail st n0 v0 :
  trim_whitespace n0 <> [] ->
  (MAX_HEADER_NAME_LENGTH <= N.of_nat (length (trim_whitespace n0))
   \/ MAX_HEADERS <= N.of_nat (length (hs_headers st)))%N ->
  parse_header_line st n0 v0 = None.
Proof.
  intros Hn Hc; unfold parse_header_line.
  destruct (length (trim_whitespace n0) =? 0)%nat eqn:E0.
  { apply Nat.eqb_eq, length_zero_iff_nil in E0; contradiction. }
  destruct (N.leb_spec MAX_HEADER_NAME_LENGTH (N.of_nat (length (trim_whitespace n0))));
    [reflexivity|].
  destruct (N.leb_spec MAX_HEADERS (N.of_nat (length (hs_headers st)))); [reflexivity|].
  lia.
Qed.

(** What one accepted header line does to the parser state. *)
Lemma parse_header_line_ok st n0 v0 :
  let n := trim_whitespace n0 in
  let v := trim_whitespace v0 in
  n <> [] -> (N.of_nat (length n) < MAX_HEADER_NAME_LENGTH)%N ->
  (N.of_nat (length (hs_headers st)) < MAX_HEADERS)%N ->
  exists st',
    parse_header_line st n0 v0 = Some (Some st') /\
    hs_headers st' =
      hs_headers st ++ [(n, firstn (N.to_nat (MAX_HEADER_VALUE_LENGTH - 1)) v)] /\
    (strcaseeq n "X-Idempotency-Key" = true ->
       hs_key st' = firstn (N.to_nat (MAX_IDEMPOTENCY_KEY_LENGTH - 1)) v
       /\ hs_has_key st' = true) /\
    (strcaseeq n "X-Idempotency-Key" = false ->
       hs_key st' = hs_key st /\ hs_has_key st' = hs_has_key st) /\
    (strcaseeq n "Content-Length" = true ->
       hs_content_length st' =
         let (c, e) := strtoul10 (firstn (N.to_nat (MAX_HEADER_VALUE_LENGTH - 1)) v) in
         match e with [] => c | _ => 0%N end) /\
    (strcaseeq n "Content-Length" = false -> hs_content_length st' = hs_content_length st).
Proof.
  intros n v Hn Hl Hc. unfold parse_header_line. fold n v.
  destruct (length n =? 0)%nat eqn:E0.
  { apply Nat.eqb_eq, length_zero_iff_nil in E0; contradiction. }
  destruct (N.leb_spec MAX_HEADER_NAME_LENGTH (N.of_nat (length n))); [lia|].
  destruct (N.leb_spec MAX_HEADERS (N.of_nat (length (hs_headers st)))); [lia|].
  rewrite firstn_value_trunc.
  rewrite (firstn_short (N.to_nat (MAX_HEADER_NAME_LENGTH - 1)) n)
    by (unfold MAX_HEADER_NAME_LENGTH in *; lia).
  rewrite (firstn_firstn_le v (N.to_nat (MAX_HEADER_VALUE_LENGTH - 1))
             (N.to_nat (MAX_HEADER_VALUE_LENGTH - 1))) by lia.
  destruct (strcaseeq n "X-Idempotency-Key") eqn:K.
  - pose proof (strcaseeq_key_not_cl _ K) as K'. rewrite K'.
    eexists; split; [reflexivity|]. cbn [hs_headers hs_key hs_has_key hs_content_length].
    split; [reflexivity|]. split.
    + intros _. split; [|reflexivity].
      destruct (N.leb_spec MAX_IDEMPOTENCY_KEY_LENGTH
                  (N.of_nat (length (firstn (N.to_nat (MAX_HEADER_VALUE_LENGTH - 1)) v))));
        repeat rewrite firstn_firstn_le
          by (unfold MAX_IDEMPOTENCY_KEY_LENGTH, MAX_HEADER_VALUE_LENGTH; lia);
        reflexivity.
    + split; [discriminate|]. split; [discriminate|]. reflexivity.
  - eexists; split; [reflexivity|]. cbn [hs_headers hs_key hs_has_key hs_content_length].
    split; [reflexivity|]. split; [discriminate|]. split; [split; reflexivity|].
    destruct (strcaseeq n "Content-Length"); split; intros; try discriminate; reflexivity.
Qed.

Section HeaderLoop.

Let ent (l : cstr) : list (cstr * cstr) :=
  match header_entry l with Some e => [e] | None => [] end.

Lemma parse_header_lines_cons st l rest :
  l <> [] ->
  parse_header_lines st (l :: rest) =
  match split_colon l with
  | None => parse_header_lines st rest
  | Some (name, value) =>
      match parse_header_line st name value with
      | None => None
      | Some None => parse_header_lines st rest
      | Some (Some st') => parse_header_lines st' rest
      end
  end.
Proof.
  intros Hl; simpl. destruct (length l =? 0)%nat eqn:E; [|reflexivity].
  apply Nat.eqb_eq, length_zero_iff_nil in E; contradiction.
Qed.

(** The loop fails exactly on a too long name or a 65th header. *)
Lemma parse_header_lines_fail lines st :
  Forall (fun l => l <> []) lines ->
  (N.of_nat (length (hs_headers st)) <= MAX_HEADERS)%N ->
  parse_header_lines st lines = None <->
  (exists e, In e (flat_map ent lines)
             /\ (MAX_HEADER_NAME_LENGTH <= N.of_nat (length (fst e)))%N)
  \/ (MAX_HEADERS < N.of_nat (length (hs_headers st) + length (flat_map ent lines)))%N.
Proof.
  revert st; induction lines as [|l rest IH]; intros st Hne Hle.
  - simpl. split; [discriminate|]. intros [(e & [] & _)|H]; lia.
  - inversion Hne as [|? ? Hl Hrest]; subst.
    rewrite parse_header_lines_cons by exact Hl.
    cbn [flat_map].
    change (ent l) with (match header_entry l with Some e => [e] | None => [] end).
    unfold header_entry.
    destruct (split_colon l) as [[n0 v0]|]; [|cbn [app]; apply IH; assumption].
    destruct (length (trim_whitespace n0) =? 0)%nat eqn:E0.
    + apply Nat.eqb_eq, length_zero_iff_nil in E0. cbn [app].
      rewrite parse_header_line_skip by exact E0. apply IH; assumption.
    + assert (Hn : trim_whitespace n0 <> []).
      { intro E; rewrite E in E0; discriminate. }
      destruct (N.lt_ge_cases (N.of_nat (length (trim_whitespace n0))) MAX_HEADER_NAME_LENGTH)
        as [Hs|Hs].
      2:{ rewrite parse_header_line_fail by auto. split; [intros _|reflexivity].
          left. exists (trim_whitespace n0, trim_whitespace v0). simpl; auto. }
      destruct (N.lt_ge_cases (N.of_nat (length (hs_headers st))) MAX_HEADERS) as [Hc|Hc].
      2:{ rewrite parse_header_line_fail by auto. split; [intros _|reflexivity].
          right. simpl length. lia. }
      destruct (parse_header_line_ok st n0 v0 Hn Hs Hc) as (st' & E & Hh & _).
      rewrite E, IH; [|assumption|rewrite Hh, length_app; simpl; lia].
      rewrite Hh, length_app. simpl app. simpl length.
      split.
      * intros [(e & He & Hl')|H]; [left; exists e; simpl; auto|right; lia].
      * intros [(e & [He|He] & Hl')|H].
        -- subst e; simpl in Hl'; lia.
        -- left; exists e; auto.
        -- right; lia.
Qed.

Lemma parse_header_lines_headers lines st st' :
  Forall (fun l => l <> []) lines ->
  parse_header_lines st lines = Some st' ->
  hs_headers st' =
  hs_headers st ++ map (fun e => (fst e, firstn (N.to_nat (MAX_HEADER_VALUE_LENGTH - 1)) (snd e)))
                     (flat_map ent lines).
Proof.
  revert st; induction lines as [|l rest IH]; intros st Hne H.
  - simpl in H; inversion H; subst; rewrite app_nil_r; reflexivity.
  - inversion Hne as [|? ? Hl Hrest]; subst.
    rewrite parse_header_lines_cons in H by exact Hl.
    cbn [flat_map].
    change (ent l) with (match header_entry l with Some e => [e] | None => [] end).
    unfold header_entry.
    destruct (split_colon l) as [[n0 v0]|]; [|apply IH; assumption].
    destruct (length (trim_whitespace n0) =? 0)%nat eqn:E0.
    + apply Nat.eqb_eq, length_zero_iff_nil in E0.
      cbn [app]. rewrite parse_header_line_skip in H by exact E0. apply IH; assumption.
    + assert (Hn : trim_whitespace n0 <> []).
      { intro E; rewrite E in E0; discriminate. }
      destruct (N.lt_ge_cases (N.of_nat (length (trim_whitespace n0))) MAX_HEADER_NAME_LENGTH)
        as [Hs|Hs].
      2:{ rewrite parse_header_line_fail in H by auto. discriminate. }
      destruct (N.lt_ge_cases (N.of_nat (length (hs_headers st))) MAX_HEADERS) as [Hc|Hc].
      2:{ rewrite parse_header_line_fail in H by auto. discriminate. }
      destruct (parse_header_line_ok st n0 v0 Hn Hs Hc) as (st1 & E & Hh & _).
      rewrite E in H. rewrite (IH st1 Hrest H), Hh, <- app_assoc. reflexivity.
Qed.

(** Splitting the line list: the loop runs on the first part, then on the
    second from the state it reached. *)
Lemma parse_header_lines_app ls1 ls2 st st' :
  Forall (fun l => l <> []) ls1 ->
  parse_header_lines st (ls1 ++ ls2) = Some st' ->
  exists st1, parse_header_lines st ls1 = Some st1 /\ parse_header_lines st1 ls2 = Some st'.
Proof.
  revert st; induction ls1 as [|l rest IH]; intros st Hne H.
  - exists st; split; [reflexivity|exact H].
  - inversion Hne as [|? ? Hl Hrest]; subst.
    simpl app in H. rewrite parse_header_lines_cons in H by exact Hl.
    rewrite parse_header_lines_cons by exact Hl.
    destruct (split_colon l) as [[n0 v0]|]; [|apply IH; assumption].
    destruct (parse_header_line st n0 v0) as [[st0|]|]; [apply IH; assumption|
      apply IH; assumption|discriminate].
Qed.

End HeaderLoop.

Lemma header_entries_names section e :
  In e (header_entries section) -> fst e <> [].
Proof.
  unfold header_entries. rewrite in_flat_map. intros (l & _ & He).
  unfold header_entry in He.
  destruct (split_colon l) as [[n0 v0]|]; [|contradiction].
  destruct (length (trim_whitespace n0) =? 0)%nat eqn:E; [contradiction|].
  destruct He as [He|[]]; subst e; simpl. intro H; rewrite H in E; discriminate.
Qed.

(** C6. [parse_headers] fails exactly when some header line with a
    non-empty trimmed name has a name of 256 bytes or more, or when more than
    64 such lines occur; lines without a colon or with an empty name are
    dropped; and on success the stored headers are those lines, in order,
    with every value cut to 8191 bytes, so each stored name is non-empty and
    each stored value is shorter than 8192 bytes. *)
Theorem parse_headers_bounds request section :
  (parse_headers request section = None <->
     (exists e, In e (header_entries section)
                /\ (MAX_HEADER_NAME_LENGTH <= N.of_nat (length (fst e)))%N)
     \/ (MAX_HEADERS < N.of_nat (length (header_entries section)))%N) /\
  (forall r, parse_headers request section = Some r ->
     headers r = map (fun e => (fst e, firstn (N.to_nat (MAX_HEADER_VALUE_LENGTH - 1)) (snd e)))
                   (header_entries section) /\
     Forall (fun h => fst h <> [] /\
                      (N.of_nat (length (snd h)) < MAX_HEADER_VALUE_LENGTH)%N) (headers r)).
Proof.
  assert (Hne := split_tokens_acc_nonempty is_crlf_delim [] section).
  unfold parse_headers. rewrite strtok_all_tokens. split.
  - pose proof (parse_header_lines_fail (split_tokens is_crlf_delim section) hstate_init Hne)
      as H. simpl hs_headers in H. specialize (H ltac:(simpl; lia)).
    destruct (parse_header_lines hstate_init (split_tokens is_crlf_delim section)) eqn:E.
    + split; [discriminate|]. intro Hr. apply H in Hr. discriminate.
    + split; [intros _|reflexivity]. apply H; reflexivity.
  - intros r Hr.
    destruct (parse_header_lines hstate_init (split_tokens is_crlf_delim section)) as [st|] eqn:E;
      [|discriminate].
    inversion Hr; subst r; clear Hr. cbn [headers set_header_fields].
    rewrite (parse_header_lines_headers _ _ _ Hne E). cbn [hstate_init hs_headers app].
    split; [reflexivity|].
    apply Forall_forall. intros h Hh. apply in_map_iff in Hh.
    destruct Hh as (e & <- & He). cbn [fst snd]. split.
    + exact (header_entries_names section e He).
    + rewrite length_firstn.
      assert (N.of_nat (Nat.min (N.to_nat (MAX_HEADER_VALUE_LENGTH - 1)) (length (snd e)))
              <= MAX_HEADER_VALUE_LENGTH - 1)%N by lia.
      unfold MAX_HEADER_VALUE_LENGTH in *. lia.
Qed.

Lemma parse_headers_bounds_witness :
  parse_headers http_request_init key_section_long_name = None.
Proof.
  apply (proj2 (proj1 (parse_headers_bounds http_request_init key_section_long_name))).
  left. exists (repeat "N"%char 256, ("v" : cstr)). split.
  - vm_compute. right; left; reflexivity.
  - apply N.leb_le; vm_compute; reflexivity.
Defined.

Lemma strcaseeq_nonempty n :
  strcaseeq n "X-Idempotency-Key" = true -> n <> [].
Proof.
  unfold strcaseeq; intros H E. subst n. apply cstr_eqb_true in H. discriminate.
Qed.

(** Lines that are not [X-Idempotency-Key] lines leave the key alone. *)
Lemma parse_header_lines_key_kept lines st st' :
  Forall (fun l => l <> []) lines ->
  (forall l n0 v0, In l lines -> split_colon l = Some (n0, v0) ->
     strcaseeq (trim_whitespace n0) "X-Idempotency-Key" = false) ->
  parse_header_lines st lines = Some st' ->
  hs_key st' = hs_key st /\ hs_has_key st' = hs_has_key st.
Proof.
  revert st; induction lines as [|l rest IH]; intros st Hne Hk H.
  - simpl in H; inversion H; subst; auto.
  - inversion Hne as [|? ? Hl Hrest]; subst.
    rewrite parse_header_lines_cons in H by exact Hl.
    assert (Hk' : forall l n0 v0, In l rest -> split_colon l = Some (n0, v0) ->
              strcaseeq (trim_whitespace n0) "X-Idempotency-Key" = false)
      by (intros; eapply Hk; [right|]; eauto).
    destruct (split_colon l) as [[n0 v0]|] eqn:Es; [|exact (IH st Hrest Hk' H)].
    destruct (trim_whitespace n0) eqn:Tn.
    + rewrite parse_header_line_skip in H by exact Tn. exact (IH st Hrest Hk' H).
    + assert (Hn : trim_whitespace n0 <> []) by (rewrite Tn; discriminate).
      destruct (N.lt_ge_cases (N.of_nat (length (trim_whitespace n0))) MAX_HEADER_NAME_LENGTH)
        as [Hs|Hs]; [|rewrite parse_header_line_fail in H by auto; discriminate].
      destruct (N.lt_ge_cases (N.of_nat (length (hs_headers st))) MAX_HEADERS) as [Hc|Hc];
        [|rewrite parse_header_line_fail in H by auto; discriminate].
      destruct (parse_header_line_ok st n0 v0 Hn Hs Hc) as (st1 & E & _ & _ & Hnk & _).
      rewrite E in H. destruct (Hnk (Hk l n0 v0 (or_introl eq_refl) Es)) as [K1 K2].
      rewrite <- K1, <- K2. exact (IH st1 Hrest Hk' H).
Qed.

Lemma header_entries_split section ls1 l ls2 n0 v0 :
  split_tokens is_crlf_delim section = ls1 ++ l :: ls2 ->
  split_colon l = Some (n0, v0) ->
  trim_whitespace n0 <> [] ->
  In (trim_whitespace n0, trim_whitespace v0) (header_entries section).
Proof.
  intros Hs Hc Hn. unfold header_entries. rewrite Hs, in_flat_map.
  exists l; split; [apply in_or_app; right; left; reflexivity|].
  unfold header_entry. rewrite Hc.
  destruct (length (trim_whitespace n0) =? 0)%nat eqn:E.
  - apply Nat.eqb_eq, length_zero_iff_nil in E; contradiction.
  - left; reflexivity.
Qed.

(** C10, as the code has it. Take a header section whose stored headers all
    have names shorter than 256 bytes and number at most 64, and one of
    whose lines is an [X-Idempotency-Key] line (name compared without case)
    that no later [X-Idempotency-Key] line follows. Then [parse_headers]
    succeeds, marks the request as carrying a key, and stores as key the
    first 255 bytes of that line's trimmed value. *)
Theorem idempotency_key_from_last_line request section ls1 l ls2 n0 v0 :
  split_tokens is_crlf_delim section = ls1 ++ l :: ls2 ->
  split_colon l = Some (n0, v0) ->
  strcaseeq (trim_whitespace n0) "X-Idempotency-Key" = true ->
  (forall l' n' v', In l' ls2 -> split_colon l' = Some (n', v') ->
     strcaseeq (trim_whitespace n') "X-Idempotency-Key" = false) ->
  (forall e, In e (header_entries section) ->
     (N.of_nat (length (fst e)) < MAX_HEADER_NAME_LENGTH)%N) ->
  (N.of_nat (length (header_entries section)) <= MAX_HEADERS)%N ->
  exists r, parse_headers request section = Some r
    /\ has_idempotency_key r = true
    /\ idempotency_key r = firstn (N.to_nat (MAX_IDEMPOTENCY_KEY_LENGTH - 1)) (trim_whitespace v0).
Proof.
  intros Hs Hc Hkey Hlast Hnames Hcount.
  assert (Hne := split_tokens_acc_nonempty is_crlf_delim [] section).
  fold (split_tokens is_crlf_delim section) in Hne.
  unfold parse_headers. rewrite strtok_all_tokens.
  destruct (parse_header_lines hstate_init (split_tokens is_crlf_delim section)) as [st|] eqn:E.
  2:{ exfalso. apply (parse_header_lines_fail _ hstate_init Hne) in E;
      [|cbn [hstate_init hs_headers length]; lia].
      change (flat_map _ (split_tokens is_crlf_delim section)) with (header_entries section) in E.
      destruct E as [(e & He & Hl)|Hl].
      - specialize (Hnames e He). lia.
      - cbn [hstate_init hs_headers length] in Hl. lia. }
  exists (set_header_fields request (hs_headers st) (hs_content_length st) (hs_key st) (hs_has_key st)).
  split; [reflexivity|]. cbn [has_idempotency_key idempotency_key set_header_fields].
  rewrite Hs in E, Hne. apply Forall_app in Hne. destruct Hne as [Hne1 Hne2].
  destruct (parse_header_lines_app _ _ _ _ Hne1 E) as (st1 & _ & E2).
  inversion Hne2 as [|? ? Hl Hrest]; subst.
  rewrite parse_header_lines_cons, Hc in E2 by exact Hl.
  assert (Hn := strcaseeq_nonempty _ Hkey).
  assert (Hs' : (N.of_nat (length (trim_whitespace n0)) < MAX_HEADER_NAME_LENGTH)%N)
    by exact (Hnames _ (header_entries_split section ls1 l ls2 n0 v0 Hs Hc Hn)).
  destruct (N.lt_ge_cases (N.of_nat (length (hs_headers st1))) MAX_HEADERS) as [Hct|Hct];
    [|rewrite parse_header_line_fail in E2 by auto; discriminate].
  destruct (parse_header_line_ok st1 n0 v0 Hn Hs' Hct) as (st2 & E3 & _ & Hk & _).
  rewrite E3 in E2. destruct (Hk Hkey) as [K1 K2].
  destruct (parse_header_lines_key_kept ls2 st2 st Hrest Hlast E2) as [K3 K4].
  rewrite K3, K4, K1, K2. split; reflexivity.
Qed.

Lemma idempotency_key_from_last_line_witness :
  exists r, parse_headers http_request_init key_section_long = Some r
    /\ has_idempotency_key r = true
    /\ idempotency_key r = firstn (N.to_nat (MAX_IDEMPOTENCY_KEY_LENGTH - 1))
                             (trim_whitespace (" " ++ long_key)).
Proof.
  apply (idempotency_key_from_last_line http_request_init key_section_long []
           ("X-Idempotency-Key: " ++ long_key) [("Host: x" : cstr)]
           "X-Idempotency-Key" (" " ++ long_key)).
  - vm_compute; reflexivity.
  - vm_compute; reflexivity.
  - vm_compute; reflexivity.
  - intros l' n' v' [<-|[]] H; vm_compute in H; inversion H; subst; vm_compute; reflexivity.
  - intros e He; vm_compute in He; destruct He as [<-|[<-|[]]]; vm_compute; reflexivity.
  - apply N.leb_le; vm_compute; reflexivity.
Defined.

(** C10, counterexamples: a second [X-Idempotency-Key] line replaces the
    long key, so the stored key is [abc]; and a 256-byte header name next to
    the long key makes the whole parse fail. *)
Lemma idempotency_key_counterexample :
  option_map idempotency_key (parse_headers http_request_init key_section_override)
    = Some ("abc" : cstr)
  /\ parse_headers http_request_init key_section_long_name = None.
Proof. split; vm_compute; reflexivity. Qed.

Lemma parse_request_line_characterization_witness :
  parse_request_line http_request_init ("GET /pay HTTP/1.0 extra" : cstr)
  = Some (set_request_line http_request_init HTTP_METHOD_GET "/pay" HTTP_VERSION_1_0).
Proof.
  apply (proj2 (parse_request_line_characterization http_request_init
                  "GET /pay HTTP/1.0 extra" _)).
  split; [apply N.ltb_lt; vm_compute; reflexivity|].
  exists "GET", "/pay", "HTTP/1.0", [("extra" : cstr)].
  split; [vm_compute; reflexivity|].
  split; [reflexivity|].
  split; [apply N.ltb_lt; vm_compute; reflexivity|].
  right; split; reflexivity.
Defined.

(** C4, counterexample: the line splits into the tokens [GET], [/],
    [HTTP/1.1] and a fourth token, yet the parse fails, because the line is
    2315 bytes long and does not fit the 2304-byte line buffer. *)
Lemma parse_request_line_counterexample :
  split_tokens is_space_delim (cut_at LF (cut_at CR long_request_line))
    = [("GET" : cstr); ("/" : cstr); ("HTTP/1.1" : cstr); repeat "x"%char 2300]
  /\ parse_request_line http_request_init long_request_line = None.
Proof. split; vm_compute; reflexivity. Qed.

(** ** Content-Length *)

(** C5, counterexample: [strtoul] accepts a minus sign and saturates on
    overflow, and [parse_headers] only checks that the whole value was
    consumed; so [Content-Length: -5] stores 2^64 - 5 and
    [Content-Length: 99999999999999999999] stores 2^64 - 1 instead of 0,
    while [Content-Length: 42] stores 42. *)
Lemma content_length_counterexample :
  option_map content_length (parse_headers http_request_init cl_negative_section)
    = Some 18446744073709551611%N
  /\ option_map content_length (parse_headers http_request_init cl_overflow_section)
    = Some ULONG_MAX
  /\ option_map content_length (parse_headers http_request_init cl_valid_section)
    = Some 42%N.
Proof. repeat split; vm_compute; reflexivity. Qed.

(** ** The connection pipeline *)

Lemma connection_handle_parsed read_body received request :
  received <> [] ->
  parse_stage read_body (c_string received) = inr request ->
  connection_handle read_body received =
  if http_method_eqb (method request) HTTP_METHOD_POST
     && negb (has_idempotency_key request) then
    ConnResponse (http_response_create_error HTTP_UNPROCESSABLE
                    "POST requests require X-Idempotency-Key header") false
  else ConnResponse (generate_success_response request) true.
Proof.
  intros Hr Hp. unfold connection_handle.
  destruct received as [|c rest]; [contradiction|]. rewrite Hp. reflexivity.
Qed.

(** C2. When the pipeline has parsed a request whose method is POST and
    which carries no [X-Idempotency-Key], the connection is answered with
    [http_response_create_error(422, ...)]: status 422 "Unprocessable
    Entity", a [Content-Type: application/json] header and the JSON error
    body; step 7 (the handler) does not run. *)
Theorem post_without_key_rejected read_body received request :
  received <> [] ->
  parse_stage read_body (c_string received) = inr request ->
  method request = HTTP_METHOD_POST ->
  has_idempotency_key request = false ->
  connection_handle read_body received =
    ConnResponse (http_response_create_error HTTP_UNPROCESSABLE
                    "POST requests require X-Idempotency-Key header") false
  /\ status_code (http_response_create_error HTTP_UNPROCESSABLE
                    "POST requests require X-Idempotency-Key header") = 422%Z
  /\ status_message (http_response_create_error HTTP_UNPROCESSABLE
                    "POST requests require X-Idempotency-Key header") = "Unprocessable Entity"
  /\ resp_headers (http_response_create_error HTTP_UNPROCESSABLE
                    "POST requests require X-Idempotency-Key header")
     = [("Content-Type" : cstr, "application/json" : cstr)]
  /\ resp_body (http_response_create_error HTTP_UNPROCESSABLE
                    "POST requests require X-Idempotency-Key header")
     = "{" ++ [DQ] ++ "error" ++ [DQ] ++ ":" ++ [DQ]
       ++ "POST requests require X-Idempotency-Key header" ++ [DQ]
       ++ "," ++ [DQ] ++ "status" ++ [DQ] ++ ":" ++ "422"
       ++ "," ++ [DQ] ++ "message" ++ [DQ] ++ ":" ++ [DQ]
       ++ "Unprocessable Entity" ++ [DQ] ++ "}".
Proof.
  intros Hr Hp Hm Hk. rewrite (connection_handle_parsed _ _ _ Hr Hp), Hm, Hk.
  repeat split; vm_compute; reflexivity.
Qed.

Lemma post_without_key_rejected_witness :
  connection_handle no_body post_no_key_request =
    ConnResponse (http_response_create_error HTTP_UNPROCESSABLE
                    "POST requests require X-Idempotency-Key header") false.
Proof.
  apply (post_without_key_rejected no_body post_no_key_request
           (match parse_stage no_body (c_string post_no_key_request) with
            | inr q => q | inl _ => http_request_init end));
    vm_compute; first [reflexivity | discriminate].
Defined.

Lemma serve_sequence_repeat read_body received k :
  serve_sequence read_body (repeat received k)
  = repeat (connection_handle read_body received) k.
Proof. unfold serve_sequence. induction k as [|k IH]; simpl; [reflexivity|]. now rewrite IH. Qed.

Lemma handler_invocations_repeat r b k :
  handler_invocations (repeat (ConnResponse r b) k) = if b then k else 0%nat.
Proof.
  unfold handler_invocations. induction k as [|k IH]; simpl; [destruct b; reflexivity|].
  destruct b; simpl; rewrite IH; reflexivity.
Qed.

(** C1, as the code has it. [connection_handle] keeps nothing from one
    connection to the next: there is no idempotency store.  Sending the same
    bytes [k] times, where they parse to a request carrying an
    [X-Idempotency-Key], gives [k] copies of the same result, each one the
    success response of step 7, so the handler runs [k] times. *)
Theorem repeated_keyed_request_runs_each_time read_body received request k :
  received <> [] ->
  parse_stage read_body (c_string received) = inr request ->
  has_idempotency_key request = true ->
  serve_sequence read_body (repeat received k)
    = repeat (ConnResponse (generate_success_response request) true) k
  /\ handler_invocations (serve_sequence read_body (repeat received k)) = k.
Proof.
  intros Hr Hp Hk.
  assert (E : connection_handle read_body received
              = ConnResponse (generate_success_response request) true).
  { rewrite (connection_handle_parsed _ _ _ Hr Hp), Hk, andb_false_r. reflexivity. }
  rewrite serve_sequence_repeat, E, handler_invocations_repeat. split; reflexivity.
Qed.

Lemma repeated_keyed_request_runs_each_time_witness :
  handler_invocations (serve_sequence no_body (repeat post_with_key_request 2)) = 2%nat.
Proof.
  apply (repeated_keyed_request_runs_each_time no_body post_with_key_request
           (match parse_stage no_body (c_string post_with_key_request) with
            | inr q => q | inl _ => http_request_init end) 2);
    vm_compute; first [reflexivity | discriminate].
Defined.

(** C1, counterexample: two copies of a POST with
    [X-Idempotency-Key: abc123] served one after the other each run step 7;
    the handler runs twice. *)
Lemma idempotency_replay_counterexample :
  handler_invocations (serve_sequence no_body [post_with_key_request; post_with_key_request])
  = 2%nat.
Proof. vm_compute; reflexivity. Qed.

(** C3, counterexample: the request line [FOO / HTTP/1.1] parses, with
    method [HTTP_METHOD_UNKNOWN], and is answered with status 200 after
    step 7 ran, not with 501. *)
Lemma unknown_method_counterexample :
  exists q r,
    parse_stage no_body (c_string unknown_method_request) = inr q
    /\ method q = HTTP_METHOD_UNKNOWN
    /\ connection_handle no_body unknown_method_request = ConnResponse r true
    /\ status_code r = 200%Z.
Proof. vm_compute. do 2 eexists; repeat split; reflexivity. Qed.

(** ** Serialization *)

Lemma snprintf_all_total estimated_size offset pieces :
  (offset < estimated_size)%N ->
  snprintf_all estimated_size offset pieces =
  if (offset + N.of_nat (length (concat pieces)) <? estimated_size)%N
  then Some (offset + N.of_nat (length (concat pieces)))%N else None.
Proof.
  revert offset; induction pieces as [|p ps IH]; intros offset Ho; simpl.
  - rewrite N.add_0_r. destruct (N.ltb_spec offset estimated_size); [reflexivity|lia].
  - unfold snprintf_at. rewrite length_app, Nat2N.inj_add.
    destruct (N.leb_spec (estimated_size - offset) (N.of_nat (length p))) as [H|H].
    + destruct (N.ltb_spec (offset + (N.of_nat (length p) + N.of_nat (length (concat ps))))
                  estimated_size); [lia|reflexivity].
    + rewrite IH by lia. rewrite N.add_assoc. reflexivity.
Qed.

Lemma concat_serialize_pieces date r :
  concat (serialize_pieces date r) = header_block date r.
Proof.
  unfold serialize_pieces, header_block, status_line, server_line, header_line.
  rewrite concat_app. cbn [concat app]. rewrite ?app_nil_r.
  repeat rewrite <- app_assoc. rewrite concat_app. cbn [concat]. rewrite app_nil_r.
  reflexivity.
Qed.

(** C7, as the code has it. [http_response_serialize] writes the status
    line, [Server], [Date], [Content-Length] (the body length in decimal),
    the caller's headers in order, a blank line and the body, exactly when
    that header block fits the 1024 bytes it budgets for it: shorter than
    1024 bytes for an empty body (the last [snprintf] needs room for its
    NUL), at most 1024 bytes otherwise.  When it does not fit the result is
    NULL. *)
Theorem http_response_serialize_layout date r :
  http_response_serialize date r =
  if match resp_body r with
     | [] => (N.of_nat (length (header_block date r)) <? 1024)%N
     | _ => (N.of_nat (length (header_block date r)) <=? 1024)%N
     end
  then Some (expected_serialization date r) else None.
Proof.
  unfold http_response_serialize, expected_serialization.
  rewrite snprintf_all_total by lia. rewrite concat_serialize_pieces, N.add_0_l.
  set (H := N.of_nat (length (header_block date r))).
  destruct (resp_body r) as [|c b] eqn:Eb; cbn [length].
  - rewrite app_nil_r, N.add_0_r. destruct (H <? 1024)%N; reflexivity.
  - set (B := N.of_nat (S (length b))).
    assert (0 < B)%N by (unfold B; lia).
    destruct (N.ltb_spec H (1024 + B)) as [H1|H1];
      destruct (N.leb_spec H 1024) as [H2|H2];
      destruct (N.ltb_spec (1024 + B) (H + B)) as [H3|H3];
      first [reflexivity | lia].
Qed.

(** C7, counterexample: a response with one 1100-byte header value and a
    two-byte body serializes to NULL; none of the lines is emitted. *)
Lemma http_response_serialize_counterexample :
  http_response_serialize sample_date big_header_response = None.
Proof. vm_compute; reflexivity. Qed.

(** ** The task queue *)

Module TaskQueueFacts.
Import TaskQueue.

(** [count] tracks the length of the linked list. *)
Definition count_ok (q : task_queue) : Prop :=
  tq_count q = Z.of_nat (length (tq_items q)).

Definition is_enqueued (e : event) : bool :=
  match e with EvEnqueued _ => true | _ => false end.

Lemma step_facts q o :
  count_ok q ->
  count_ok (fst (step q o)) /\ snd (step q o) <> EvFault
  /\ (match snd (step q o) with
      | EvEnqueued fd => tq_items (fst (step q o)) = tq_items q ++ [fd]
      | EvDelivered fd => tq_items q = fd :: tq_items (fst (step q o))
      | _ => tq_items (fst (step q o)) = tq_items q
      end)
  /\ (tq_shutdown q = true ->
      tq_shutdown (fst (step q o)) = true /\ is_enqueued (snd (step q o)) = false).
Proof.
  unfold count_ok; intros Hc. destruct o as [fd| |]; cbn [step].
  - unfold task_queue_enqueue.
    destruct (tq_shutdown q) eqn:Hs; [cbn; repeat split; auto; discriminate|].
    destruct ((0 <? tq_max_size q)%Z && (tq_max_size q <=? tq_count q)%Z);
      cbn; repeat split; auto; try discriminate.
    rewrite length_app; simpl length; lia.
  - unfold task_queue_dequeue.
    destruct ((tq_count q =? 0)%Z && negb (tq_shutdown q)) eqn:E1;
      [cbn; repeat split; auto; discriminate|].
    destruct (tq_shutdown q && (tq_count q =? 0)%Z) eqn:E2;
      [cbn; repeat split; auto; discriminate|].
    destruct (tq_items q) as [|fd rest] eqn:Ei.
    + exfalso. simpl in Hc. rewrite Hc in E1, E2. simpl in E1, E2.
      destruct (tq_shutdown q); discriminate.
    + cbn. rewrite Hc; simpl length; repeat split; auto; try discriminate. lia.
  - cbn; repeat split; auto; discriminate.
Qed.

Lemma run_facts q ops :
  count_ok q ->
  delivered (snd (run q ops)) ++ tq_items (fst (run q ops)) = tq_items q ++ accepted (snd (run q ops))
  /\ count_ok (fst (run q ops)) /\ ~ In EvFault (snd (run q ops))
  /\ (tq_shutdown q = true ->
      tq_shutdown (fst (run q ops)) = true /\ accepted (snd (run q ops)) = []).
Proof.
  revert q; induction ops as [|o ops IH]; intros q Hc.
  - cbn. rewrite app_nil_r. repeat split; auto.
  - cbn [run]. destruct (step_facts q o Hc) as (Hc1 & Hf & Hi & Hs).
    destruct (step q o) as [q1 e] eqn:Es. cbn [fst snd] in *.
    destruct (IH q1 Hc1) as (Hd & Hc2 & Hf2 & Hs2).
    destruct (run q1 ops) as [q2 es] eqn:Er. cbn [fst snd] in *.
    split; [|split; [exact Hc2|split]].
    + unfold delivered, accepted in *.
      destruct e; cbn [flat_map app] in *; rewrite Hd, Hi, <- ?app_assoc; reflexivity.
    + intros [E|E]; [congruence|contradiction].
    + intros Hsh. destruct (Hs Hsh) as [Hs1 He]. destruct (Hs2 Hs1) as [Hs3 Ha].
      split; [exact Hs3|]. destruct e; try discriminate; cbn; exact Ha.
Qed.

(** After shutdown, [k] dequeues in a row hand out the remaining tasks in
    order, then report shutdown. *)
Lemma run_drain q k :
  count_ok q -> tq_shutdown q = true ->
  snd (run q (repeat OpDequeue k))
  = map EvDelivered (firstn k (tq_items q))
    ++ repeat EvShutdownReported (k - length (tq_items q)).
Proof.
  revert q; induction k as [|k IH]; intros q Hc Hs; [reflexivity|].
  cbn [repeat run step]. unfold task_queue_dequeue. rewrite Hs. cbn [negb andb].
  unfold count_ok in Hc.
  destruct (tq_items q) as [|fd rest] eqn:Ei.
  - rewrite Hc. cbn. specialize (IH q). rewrite Ei in IH.
    destruct (run q (repeat OpDequeue k)) as [q2 es] eqn:Er. cbn in *.
    rewrite IH by (unfold count_ok; rewrite ?Ei; auto). rewrite firstn_nil, Nat.sub_0_r.
    reflexivity.
  - assert (E : (tq_count q =? 0)%Z = false) by (apply Z.eqb_neq; rewrite Hc; simpl length; lia).
    rewrite E.
    set (q1 := mk_queue rest (tq_count q - 1) (tq_max_size q) true).
    specialize (IH q1). cbn [andb].
    destruct (run q1 (repeat OpDequeue k)) as [q2 es] eqn:Er. cbn [snd fst] in *.
    rewrite IH; [reflexivity| |reflexivity].
    unfold count_ok, q1; cbn. rewrite Hc; simpl length; lia.
Qed.

(** C8. Run any sequence of enqueue, dequeue and shutdown calls on a fresh
    queue.  The tasks handed out, followed by those still queued, are exactly
    the tasks accepted, in acceptance order: delivery is FIFO and no accepted
    task is handed out twice or lost; no dequeue finds a NULL head.  Once
    shutdown has been signalled, no task is accepted any more, later calls
    still hand out the queued tasks in order, and [k] dequeues in a row
    deliver the remaining tasks one by one and report shutdown only after the
    queue is empty. *)
Theorem task_queue_fifo_drain max_size ops :
  let q := fst (run (task_queue_init max_size) ops) in
  let es := snd (run (task_queue_init max_size) ops) in
  delivered es ++ tq_items q = accepted es
  /\ ~ In EvFault es
  /\ (tq_shutdown q = true ->
      (forall ops', accepted (snd (run q ops')) = []
                    /\ delivered (snd (run q ops')) ++ tq_items (fst (run q ops'))
                       = tq_items q)
      /\ (forall k, snd (run q (repeat OpDequeue k))
                    = map EvDelivered (firstn k (tq_items q))
                      ++ repeat EvShutdownReported (k - length (tq_items q)))).
Proof.
  intros q es.
  assert (H0 : count_ok (task_queue_init max_size)) by reflexivity.
  destruct (run_facts _ ops H0) as (Hd & Hc & Hf & _).
  fold q es in Hd, Hc, Hf.
  split; [exact Hd|split; [exact Hf|]].
  intros Hs. split.
  - intros ops'. destruct (run_facts q ops' Hc) as (Hd' & _ & _ & Hs').
    destruct (Hs' Hs) as [_ Ha]. rewrite Ha, app_nil_r in Hd'. split; assumption.
  - intros k. apply run_drain; assumption.
Qed.

Lemma task_queue_fifo_drain_witness :
  let ops := [OpEnqueue 5; OpEnqueue 6; OpDequeue; OpShutdown; OpEnqueue 7] in
  delivered (snd (run (task_queue_init 2) ops)) ++ tq_items (fst (run (task_queue_init 2) ops))
  = accepted (snd (run (task_queue_init 2) ops)).
Proof.
  exact (proj1 (task_queue_fifo_drain 2 [OpEnqueue 5; OpEnqueue 6; OpDequeue; OpShutdown; OpEnqueue 7])).
Defined.

End TaskQueueFacts.

(** ** Decimal rendering and [strtoul] *)

Definition is_digit_char (c : ascii) : Prop := exists k, (k < 10)%N /\ c = digit_char k.

Lemma digit_char_facts k :
  (k < 10)%N ->
  digit_value (digit_char k) = k /\ is_digit (digit_char k) = true
  /\ is_c_space (digit_char k) = false /\ is_trim_ws (digit_char k) = false
  /\ ascii_eqb (digit_char k) "-"%char = false /\ ascii_eqb (digit_char k) "+"%char = false
  /\ ascii_eqb (digit_char k) ":"%char = false /\ is_space_delim (digit_char k) = false
  /\ digit_char k <> CR /\ digit_char k <> LF.
Proof.
  intros Hk.
  assert (k = 0 \/ k = 1 \/ k = 2 \/ k = 3 \/ k = 4 \/ k = 5 \/ k = 6 \/ k = 7
          \/ k = 8 \/ k = 9)%N as Hc by lia.
  repeat destruct Hc as [->|Hc]; try subst k;
    vm_compute; repeat split; discriminate.
Qed.

Lemma digits_value_app ds c :
  digits_value (ds ++ [c]) = (digits_value ds * 10 + digit_value c)%N.
Proof. unfold digits_value. rewrite fold_left_app. reflexivity. Qed.

Lemma dec_aux_S f n acc :
  dec_aux (S f) n acc =
  if (n / 10 =? 0)%N then digit_char (n mod 10) :: acc
  else dec_aux f (n / 10) (digit_char (n mod 10) :: acc).
Proof. reflexivity. Qed.

Lemma dec_aux_spec fuel n acc :
  (n < 10 ^ N.of_nat (S fuel))%N ->
  exists ds, dec_aux (S fuel) n acc = ds ++ acc /\ ds <> [] /\ Forall is_digit_char ds
             /\ digits_value ds = n /\ (length ds <= S fuel)%nat.
Proof.
  revert n acc; induction fuel as [|f IH]; intros n acc Hn;
    rewrite dec_aux_S;
    assert (Hm : (n mod 10 < 10)%N) by (apply N.mod_lt; discriminate);
    destruct (digit_char_facts _ Hm) as (Hv & _);
    pose proof (N.div_mod n 10 ltac:(discriminate)) as Hdm.
  - assert (Hq : (n / 10 = 0)%N).
    { apply N.div_small. simpl in Hn. exact Hn. }
    rewrite Hq. cbn [N.eqb].
    exists [digit_char (n mod 10)]. split; [reflexivity|]. split; [discriminate|].
    split; [constructor; [exists (n mod 10)%N; auto|constructor]|].
    split; [|simpl; lia].
    unfold digits_value; simpl. rewrite Hv. lia.
  - destruct (N.eqb_spec (n / 10) 0) as [Hq|Hq].
    + exists [digit_char (n mod 10)]. split; [reflexivity|]. split; [discriminate|].
      split; [constructor; [exists (n mod 10)%N; auto|constructor]|].
      split; [|simpl; lia].
      unfold digits_value; simpl. rewrite Hv. lia.
    + assert (Hd : (n / 10 < 10 ^ N.of_nat (S f))%N).
      { apply N.div_lt_upper_bound; [discriminate|].
        rewrite (Nat2N.inj_succ (S f)), N.pow_succ_r' in Hn. exact Hn. }
      destruct (IH (n / 10)%N (digit_char (n mod 10) :: acc) Hd)
        as (ds & E & Hne & Hf & Hval & Hlen).
      exists (ds ++ [digit_char (n mod 10)]). rewrite E, <- app_assoc. split; [reflexivity|].
      split; [destruct ds; [contradiction|discriminate]|].
      split; [apply Forall_app; split; [exact Hf|constructor; [exists (n mod 10)%N; auto|constructor]]|].
      split; [|rewrite length_app; simpl; lia].
      rewrite digits_value_app, Hval, Hv. lia.
Qed.

Lemma pos_lt_pow_size p : (N.pos p < 2 ^ N.of_nat (Pos.size_nat p))%N.
Proof.
  induction p as [p IH|p IH|]; cbn [Pos.size_nat]; rewrite ?Nat2N.inj_succ, ?N.pow_succ_r';
    [| |reflexivity].
  - change (N.pos p~1) with (2 * N.pos p + 1)%N. lia.
  - change (N.pos p~0) with (2 * N.pos p)%N. lia.
Qed.

Lemma N_to_dec_spec n :
  exists ds, N_to_dec n = ds /\ ds <> [] /\ Forall is_digit_char ds /\ digits_value ds = n
             /\ (length ds <= S (N.size_nat n))%nat.
Proof.
  unfold N_to_dec.
  assert (H : (n < 10 ^ N.of_nat (S (N.size_nat n)))%N).
  { destruct n as [|p]; [reflexivity|].
    cbn [N.size_nat]. pose proof (pos_lt_pow_size p) as Hp.
    assert (2 ^ N.of_nat (Pos.size_nat p) <= 10 ^ N.of_nat (Pos.size_nat p))%N
      by (apply N.pow_le_mono_l; lia).
    rewrite Nat2N.inj_succ, N.pow_succ_r'. lia. }
  destruct (dec_aux_spec _ n [] H) as (ds & E & Hne & Hf & Hv & Hl).
  rewrite app_nil_r in E. exists ds; auto.
Qed.

Lemma span_digits_all ds : Forall is_digit_char ds -> span_digits ds = (ds, []).
Proof.
  induction 1 as [|c ds (k & Hk & ->) _ IH]; [reflexivity|].
  cbn [span_digits]. destruct (digit_char_facts k Hk) as (_ & Hd & _).
  rewrite Hd, IH. reflexivity.
Qed.

Lemma strtoul10_digits ds :
  ds <> [] -> Forall is_digit_char ds -> (digits_value ds <= ULONG_MAX)%N ->
  strtoul10 ds = (digits_value ds, []).
Proof.
  intros Hne Hf Hle. destruct ds as [|c ds']; [contradiction|].
  pose proof Hf as Hf'. inversion Hf' as [|? ? (k & Hk & Ec) _]; subst.
  destruct (digit_char_facts k Hk) as (_ & _ & Hs & _ & Hm & Hp & _).
  unfold strtoul10. cbn [skip_c_space]. rewrite Hs. rewrite Hm, Hp.
  rewrite span_digits_all by exact Hf.
  destruct (N.ltb_spec ULONG_MAX (digits_value (digit_char k :: ds'))); [lia|reflexivity].
Qed.

Lemma size_nat_ulong n : (n <= ULONG_MAX)%N -> (N.size_nat n <= 64)%nat.
Proof.
  intros H. destruct n as [|p]; [simpl; lia|]. cbn [N.size_nat].
  destruct (Pos.lt_total p 18446744073709551615%positive) as [Hl|[->|Hg]].
  - apply Pos.size_nat_monotone in Hl. vm_compute in Hl. exact Hl.
  - vm_compute; lia.
  - unfold ULONG_MAX in H. lia.
Qed.

(** ** Reading a serialized response back *)

Lemma str_find_skip_plain p' x y :
  (forall c, In c x -> c <> CR) ->
  str_find (CR :: p') (x ++ y) = option_map (Nat.add (length x)) (str_find (CR :: p') y).
Proof.
  induction x as [|c x IH]; intros Hx; simpl.
  - destruct (str_find (CR :: p') y); reflexivity.
  - assert (E : ascii_eqb CR c = false).
    { destruct (ascii_eqb CR c) eqn:E; [|reflexivity].
      apply ascii_eqb_true in E. exfalso. apply (Hx c); [left; reflexivity|symmetry; exact E]. }
    rewrite E. cbn [andb]. rewrite IH by (intros c' Hc'; apply Hx; right; exact Hc').
    destruct (str_find (CR :: p') y); reflexivity.
Qed.

Lemma line_safe_no_cr l : line_safe l -> forall c, In c l -> c <> CR.
Proof. intros [H _] c Hc ->. contradiction. Qed.

Lemma line_safe_no_lf l : line_safe l -> forall c, In c l -> c <> LF.
Proof. intros [_ H] c Hc ->. contradiction. Qed.

Definition good_line (l : cstr) : Prop := l <> [] /\ line_safe l.

Lemma join_lines_cons2 l l' ls :
  join_lines (l :: l' :: ls) = l ++ crlf ++ join_lines (l' :: ls).
Proof. reflexivity. Qed.

Lemma join_lines_head l ls :
  good_line l -> exists c rest, join_lines (l :: ls) = c :: rest /\ c <> CR.
Proof.
  intros [Hne Hs]. destruct l as [|c l]; [contradiction|].
  exists c. destruct ls as [|l' ls].
  - exists l; split; [reflexivity|]. apply (line_safe_no_cr _ Hs); left; reflexivity.
  - eexists; split; [reflexivity|]. apply (line_safe_no_cr _ Hs); left; reflexivity.
Qed.

Lemma str_find_cons p c s :
  str_find p (c :: s) = if is_prefix p (c :: s) then Some O else option_map S (str_find p s).
Proof. destruct p; reflexivity. Qed.

Lemma is_prefix_blank_cr c x :
  c <> CR -> is_prefix [CR; LF; CR; LF] (CR :: LF :: c :: x) = false.
Proof.
  intros H.
  change (is_prefix [CR; LF; CR; LF] (CR :: LF :: c :: x))
    with (ascii_eqb CR CR && (ascii_eqb LF LF && (ascii_eqb CR c && is_prefix [LF] x))).
  destruct (ascii_eqb CR c) eqn:E.
  - apply ascii_eqb_true in E. congruence.
  - reflexivity.
Qed.

Lemma is_prefix_blank_lf x : is_prefix [CR; LF; CR; LF] (LF :: x) = false.
Proof. reflexivity. Qed.

Lemma find_blank_line lines body :
  lines <> [] -> Forall good_line lines ->
  str_find (crlf ++ crlf) (join_lines lines ++ crlf ++ crlf ++ body)
  = Some (length (join_lines lines)).
Proof.
  induction lines as [|l ls IH]; intros Hne Hg; [contradiction|].
  inversion Hg as [|? ? Hl Hls]; subst.
  destruct ls as [|l' ls].
  - cbn [join_lines]. change (crlf ++ crlf) with [CR; LF; CR; LF].
    rewrite str_find_skip_plain by exact (line_safe_no_cr _ (proj2 Hl)).
    cbn. rewrite Nat.add_0_r. reflexivity.
  - rewrite join_lines_cons2. rewrite <- !app_assoc.
    change (crlf ++ crlf) with [CR; LF; CR; LF].
    rewrite str_find_skip_plain by exact (line_safe_no_cr _ (proj2 Hl)).
    inversion Hls as [|? ? Hl' _]; subst.
    destruct (join_lines_head l' ls Hl') as (c & rest & Ej & Hc).
    assert (IH' := IH ltac:(discriminate) Hls).
    change (crlf ++ crlf) with [CR; LF; CR; LF] in IH'.
    rewrite Ej in IH' |- *. unfold crlf in *. cbn [app] in IH' |- *.
    rewrite str_find_cons, is_prefix_blank_cr by exact Hc.
    rewrite str_find_cons, is_prefix_blank_lf.
    rewrite IH'. cbn [option_map].
    rewrite length_app. reflexivity.
Qed.

Lemma split_tokens_plain_then d t c s :
  t <> [] -> (forall x, In x t -> d x = false) -> d c = true ->
  split_tokens_acc d [] (t ++ c :: s) = t :: split_tokens_acc d [] s.
Proof.
  intros Ht Hp Hc. rewrite split_tokens_acc_app_plain by exact Hp.
  rewrite app_nil_r. cbn [split_tokens_acc]. rewrite Hc.
  destruct (rev t) eqn:E.
  - apply (f_equal (@rev ascii)) in E. rewrite rev_involutive in E. contradiction.
  - rewrite <- E, rev_involutive. reflexivity.
Qed.

Lemma split_tokens_plain_end d t :
  t <> [] -> (forall x, In x t -> d x = false) -> split_tokens_acc d [] t = [t].
Proof.
  intros Ht Hp. rewrite <- (app_nil_r t) at 1.
  rewrite split_tokens_acc_app_plain by exact Hp.
  rewrite app_nil_r. cbn [split_tokens_acc].
  destruct (rev t) eqn:E.
  - apply (f_equal (@rev ascii)) in E. rewrite rev_involutive in E. contradiction.
  - rewrite <- E, rev_involutive. reflexivity.
Qed.

Lemma good_line_plain l : good_line l -> forall x, In x l -> is_crlf_delim x = false.
Proof.
  intros [_ Hs] x Hx. unfold is_crlf_delim.
  destruct (ascii_eqb x CR) eqn:E1; [apply ascii_eqb_true in E1; subst;
    exfalso; exact (line_safe_no_cr _ Hs _ Hx eq_refl)|].
  destruct (ascii_eqb x LF) eqn:E2; [apply ascii_eqb_true in E2; subst;
    exfalso; exact (line_safe_no_lf _ Hs _ Hx eq_refl)|].
  reflexivity.
Qed.

Lemma split_tokens_join_lines ls :
  ls <> [] -> Forall good_line ls -> split_tokens is_crlf_delim (join_lines ls) = ls.
Proof.
  unfold split_tokens.
  induction ls as [|l ls IH]; intros Hne Hg; [contradiction|].
  inversion Hg as [|? ? Hl Hls]; subst.
  destruct ls as [|l' ls].
  - cbn [join_lines]. apply split_tokens_plain_end; [apply Hl|apply good_line_plain, Hl].
  - rewrite join_lines_cons2. unfold crlf. cbn [app].
    rewrite split_tokens_plain_then; [|apply Hl|apply good_line_plain, Hl|reflexivity].
    cbn [split_tokens_acc]. change (is_crlf_delim LF) with true. cbn iota.
    rewrite IH; [reflexivity|discriminate|exact Hls].
Qed.

Lemma split_colon_name n s :
  ~ In ":"%char n -> split_colon (n ++ ":"%char :: s) = Some (n, s).
Proof.
  induction n as [|x n IH]; intros Hn; cbn [app split_colon].
  - rewrite ascii_eqb_refl. reflexivity.
  - destruct (ascii_eqb x ":"%char) eqn:E.
    + apply ascii_eqb_true in E. subst. exfalso; apply Hn; left; reflexivity.
    + rewrite IH by (intro H; apply Hn; right; exact H). reflexivity.
Qed.

Lemma trim_trimmed s : trimmed s -> trim_whitespace s = s.
Proof.
  intros [H1 H2]. unfold trim_whitespace. rewrite H1, H2, rev_involutive. reflexivity.
Qed.

Lemma trim_space_trimmed s : trimmed s -> trim_whitespace (" "%char :: s) = s.
Proof.
  intros Hs. unfold trim_whitespace. cbn [drop_ws].
  change (is_trim_ws " "%char) with true. cbn iota.
  exact (trim_trimmed s Hs).
Qed.

Lemma join_lines_crlf x xs :
  join_lines (x :: xs) ++ crlf = concat (map (fun l => l ++ crlf) (x :: xs)).
Proof.
  revert x; induction xs as [|y xs IH]; intros x; [cbn; rewrite app_nil_r; reflexivity|].
  rewrite join_lines_cons2, <- !app_assoc, IH. cbn [map concat].
  rewrite <- !app_assoc. reflexivity.
Qed.

Definition hline (h : cstr * cstr) : cstr := fst h ++ ": " ++ snd h.

Definition status_text (r : http_response) : cstr :=
  "HTTP/1.1 " ++ Z_to_dec (status_code r) ++ " " ++ status_message r.

Lemma header_block_lines date r :
  header_block date r
  = join_lines (status_text r :: map hline (injected_headers date r ++ resp_headers r))
    ++ crlf ++ crlf.
Proof.
  rewrite app_assoc, join_lines_crlf.
  unfold header_block, injected_headers, status_text, hline.
  cbn [map concat app fst snd]. rewrite map_map, <- !app_assoc.
  rewrite (map_ext (fun x : cstr * cstr => (fst x ++ ": " ++ snd x) ++ crlf)
                   (fun h : cstr * cstr => fst h ++ ": " ++ snd h ++ crlf))
    by (intros; rewrite <- !app_assoc; reflexivity).
  reflexivity.
Qed.

Lemma wf_header_entry h : wf_header h -> header_entry (hline h) = Some h.
Proof.
  destruct h as [n v]. intros (Hn & Hc & _ & Htn & _ & _ & Htv & _).
  unfold hline, header_entry. cbn [fst snd].
  change (n ++ ": " ++ v) with (n ++ ":"%char :: " "%char :: v).
  rewrite split_colon_name by exact Hc.
  rewrite trim_trimmed by exact Htn. rewrite trim_space_trimmed by exact Htv.
  destruct (length n =? 0)%nat eqn:E; [|reflexivity].
  apply Nat.eqb_eq, length_zero_iff_nil in E. contradiction.
Qed.

Lemma wf_header_good h : wf_header h -> good_line (hline h).
Proof.
  destruct h as [n v]. intros (Hn & _ & [Hn1 Hn2] & _ & _ & [Hv1 Hv2] & _).
  unfold hline; cbn [fst snd]. split.
  - destruct n; [contradiction|discriminate].
  - change (n ++ ": " ++ v) with (n ++ ":"%char :: " "%char :: v).
    split; intro H; apply in_app_or in H; destruct H as [H|[H|[H|H]]];
      try contradiction; discriminate.
Qed.

Lemma header_entries_hlines hs :
  hs <> [] -> Forall wf_header hs -> header_entries (join_lines (map hline hs)) = hs.
Proof.
  intros Hne Hwf. unfold header_entries.
  rewrite split_tokens_join_lines.
  - clear Hne. induction Hwf as [|h hs Hh _ IH]; [reflexivity|].
    cbn [map flat_map]. rewrite wf_header_entry by exact Hh. rewrite IH. reflexivity.
  - destruct hs; [contradiction|discriminate].
  - apply Forall_map. eapply Forall_impl; [|exact Hwf]. exact wf_header_good.
Qed.

Lemma parse_headers_success request section :
  (forall e, In e (header_entries section) ->
     (N.of_nat (length (fst e)) < MAX_HEADER_NAME_LENGTH)%N) ->
  (N.of_nat (length (header_entries section)) <= MAX_HEADERS)%N ->
  exists r, parse_headers request section = Some r
    /\ headers r = map (fun e => (fst e, firstn (N.to_nat (MAX_HEADER_VALUE_LENGTH - 1)) (snd e)))
                     (header_entries section).
Proof.
  intros Hnames Hcount.
  assert (Hne := split_tokens_acc_nonempty is_crlf_delim [] section).
  fold (split_tokens is_crlf_delim section) in Hne.
  unfold parse_headers. rewrite strtok_all_tokens.
  destruct (parse_header_lines hstate_init (split_tokens is_crlf_delim section)) as [st|] eqn:E.
  - eexists; split; [reflexivity|]. cbn [headers set_header_fields].
    rewrite (parse_header_lines_headers _ _ _ Hne E). reflexivity.
  - exfalso. apply (parse_header_lines_fail _ hstate_init Hne) in E;
      [|cbn [hstate_init hs_headers length]; lia].
    change (flat_map _ (split_tokens is_crlf_delim section)) with (header_entries section) in E.
    destruct E as [(e & He & Hl)|Hl].
    + specialize (Hnames e He). lia.
    + cbn [hstate_init hs_headers length] in Hl. lia.
Qed.

Lemma digits_wf ds : ds <> [] -> Forall is_digit_char ds -> trimmed ds /\ line_safe ds.
Proof.
  intros Hne Hf.
  assert (Hd : forall c, In c ds -> is_trim_ws c = false /\ c <> CR /\ c <> LF).
  { intros c Hc. rewrite Forall_forall in Hf. destruct (Hf c Hc) as (k & Hk & ->).
    destruct (digit_char_facts k Hk) as (_ & _ & _ & Hw & _ & _ & _ & _ & Hcr & Hlf).
    auto. }
  split; [split|split].
  - destruct ds as [|c ds']; [contradiction|]. cbn [drop_ws].
    rewrite (proj1 (Hd c (or_introl eq_refl))). reflexivity.
  - destruct (rev ds) as [|c ds'] eqn:E.
    + reflexivity.
    + cbn [drop_ws].
      assert (Hc : In c ds) by (apply in_rev; rewrite E; left; reflexivity).
      rewrite (proj1 (Hd c Hc)). reflexivity.
  - intro H. exact (proj1 (proj2 (Hd CR H)) eq_refl).
  - intro H. exact (proj2 (proj2 (Hd LF H)) eq_refl).
Qed.

Lemma server_header_wf : wf_header ("Server" : cstr, "C-HTTP-Payment-Server/1.0" : cstr).
Proof.
  unfold wf_header, line_safe, trimmed; cbn [fst snd].
  repeat split; try discriminate; try (vm_compute; reflexivity);
    intro H; cbn [In] in H; repeat destruct H as [H|H]; try discriminate; contradiction.
Qed.

Lemma injected_headers_wf date r :
  wf_header ("Date" : cstr, date) ->
  (N.of_nat (length (resp_body r)) <= ULONG_MAX)%N ->
  Forall wf_header (injected_headers date r).
Proof.
  intros Hd Hb. unfold injected_headers.
  constructor; [exact server_header_wf|]. constructor; [exact Hd|].
  constructor; [|constructor].
  destruct (N_to_dec_spec (N.of_nat (length (resp_body r)))) as (ds & E & Hne & Hf & _ & Hl).
  rewrite E. destruct (digits_wf ds Hne Hf) as [Ht Hs].
  pose proof (size_nat_ulong _ Hb) as Hz.
  unfold wf_header, line_safe, trimmed; cbn [fst snd].
  repeat split; try discriminate; try (vm_compute; reflexivity); try apply Ht; try apply Hs.
  - intro H; cbn [In] in H; repeat destruct H as [H|H]; try discriminate; contradiction.
  - intro H; cbn [In] in H; repeat destruct H as [H|H]; try discriminate; contradiction.
  - intro H; cbn [In] in H; repeat destruct H as [H|H]; try discriminate; contradiction.
  - unfold MAX_HEADER_VALUE_LENGTH. lia.
Qed.

Lemma serialize_some date r out :
  http_response_serialize date r = Some out -> out = header_block date r ++ resp_body r.
Proof.
  unfold http_response_serialize.
  rewrite snprintf_all_total by lia. rewrite concat_serialize_pieces, N.add_0_l.
  destruct (N.of_nat (length (header_block date r)) <? 1024 + N.of_nat (length (resp_body r)))%N;
    [|discriminate].
  destruct (resp_body r) as [|c b].
  - intros H; inversion H; rewrite app_nil_r; reflexivity.
  - destruct (_ <? _)%N; [discriminate|]. intros H; inversion H; reflexivity.
Qed.

Lemma firstn_app_exact (l l' : cstr) : firstn (length l) (l ++ l') = l.
Proof. rewrite firstn_app, firstn_all, Nat.sub_diag, firstn_O, app_nil_r. reflexivity. Qed.

Lemma skipn_app_exact (l l' : cstr) k : skipn (length l + k) (l ++ l') = skipn k l'.
Proof.
  rewrite skipn_app, skipn_all2 by lia. cbn [app]. f_equal. lia.
Qed.

Lemma str_find_crlf_here s : str_find crlf (crlf ++ s) = Some O.
Proof. reflexivity. Qed.

Lemma status_tokens r ds :
  Z_to_dec (status_code r) = ds -> ds <> [] -> Forall is_digit_char ds ->
  split_tokens is_space_delim (status_text r)
  = ("HTTP/1.1" : cstr) :: ds :: split_tokens is_space_delim (status_message r).
Proof.
  intros E Hne Hf. unfold status_text, split_tokens. rewrite E.
  change (("HTTP/1.1 " : cstr) ++ ds ++ " " ++ status_message r)
    with (("HTTP/1.1" : cstr) ++ " "%char :: (ds ++ " "%char :: status_message r)).
  rewrite split_tokens_plain_then; [|discriminate| |reflexivity].
  - rewrite split_tokens_plain_then; [reflexivity|exact Hne| |reflexivity].
    intros x Hx. rewrite Forall_forall in Hf. destruct (Hf x Hx) as (k & Hk & ->).
    apply (digit_char_facts k Hk).
  - intros x Hx. cbn [In] in Hx. repeat destruct Hx as [Hx|Hx]; subst; try reflexivity.
    contradiction.
Qed.

(** C9, as the code has it. For a well-formed response (see [wf_response])
    that serializes, a client that splits the bytes at the first blank line,
    reads the status code as the second token of the status line, parses
    the header lines with [parse_headers] and keeps the rest as the body gets
    back the status code, the body, and as headers the three injected ones
    ([Server], [Date], [Content-Length]) followed by the caller's headers. *)
Theorem serialize_parse_roundtrip date r out :
  wf_response date r ->
  http_response_serialize date r = Some out ->
  client_parse_response out
  = Some (status_code r, injected_headers date r ++ resp_headers r, resp_body r).
Proof.
  intros (Hcode & Hmsg & Hdate & Hhs & Hlen & Hbody) Hser.
  apply serialize_some in Hser. subst out.
  set (hs := injected_headers date r ++ resp_headers r).
  assert (Hwf : Forall wf_header hs).
  { apply Forall_app; split; [apply injected_headers_wf|]; assumption. }
  destruct (N_to_dec_spec (Z.to_N (status_code r))) as (ds & Eds & Hne & Hf & Hv & _).
  assert (Ecode : Z_to_dec (status_code r) = ds).
  { unfold Z_to_dec. destruct (Z.ltb_spec (status_code r) 0); [lia|exact Eds]. }
  assert (Hst : good_line (status_text r)).
  { destruct (digits_wf ds Hne Hf) as [_ [Hd1 Hd2]]. destruct Hmsg as [Hm1 Hm2].
    split; [discriminate|]. unfold status_text. rewrite Ecode.
    change (("HTTP/1.1 " : cstr) ++ ds ++ " " ++ status_message r)
      with (("HTTP/1.1 " : cstr) ++ ds ++ " "%char :: status_message r).
    split; intro H; apply in_app_or in H; destruct H as [H|H];
      [cbn [In] in H; repeat destruct H as [H|H]; try discriminate; contradiction| |
       cbn [In] in H; repeat destruct H as [H|H]; try discriminate; contradiction| ];
      apply in_app_or in H; destruct H as [H|[H|H]]; try contradiction; discriminate. }
  assert (Hgood : Forall good_line (map hline hs)).
  { apply Forall_map. eapply Forall_impl; [|exact Hwf]. exact wf_header_good. }
  rewrite header_block_lines. fold hs. rewrite <- !app_assoc.
  unfold client_parse_response.
  rewrite find_blank_line; [|discriminate|constructor; assumption].
  rewrite firstn_app_exact.
  change (crlf ++ crlf ++ resp_body r) with (CR :: LF :: CR :: LF :: resp_body r).
  rewrite skipn_app_exact. cbn [skipn].
  assert (EJ : join_lines (status_text r :: map hline hs)
               = status_text r ++ crlf ++ join_lines (map hline hs)) by reflexivity.
  rewrite EJ.
  change crlf with (CR :: [LF]) at 1.
  rewrite str_find_skip_plain by exact (line_safe_no_cr _ (proj2 Hst)).
  change (CR :: [LF]) with crlf.
  rewrite str_find_crlf_here. cbn [option_map]. rewrite Nat.add_0_r.
  rewrite firstn_app_exact, skipn_app_exact.
  change (skipn 2 (crlf ++ join_lines (map hline hs))) with (join_lines (map hline hs)).
  rewrite (status_tokens r ds Ecode Hne Hf).
  rewrite strtoul10_digits by (try assumption; rewrite Hv; unfold ULONG_MAX; lia).
  assert (Hent : header_entries (join_lines (map hline hs)) = hs)
    by (apply header_entries_hlines; [discriminate|exact Hwf]).
  destruct (parse_headers_success http_request_init (join_lines (map hline hs)))
    as (rq & Erq & Hrq).
  { rewrite Hent. intros e He. rewrite Forall_forall in Hwf. apply (Hwf e He). }
  { rewrite Hent. unfold hs. rewrite length_app. cbn [injected_headers length].
    unfold MAX_HEADERS. lia. }
  rewrite Erq, Hrq, Hent, Hv, Z2N.id by lia.
  f_equal. f_equal. f_equal.
  rewrite <- (map_id hs) at 2. apply map_ext_in.
  intros [n v] Hin. cbn [fst snd]. f_equal.
  rewrite Forall_forall in Hwf. destruct (Hwf _ Hin) as (_ & _ & _ & _ & _ & _ & _ & Hvl).
  cbn [snd] in Hvl. apply firstn_all2.
  unfold MAX_HEADER_VALUE_LENGTH in *. lia.
Qed.

Lemma serialize_parse_roundtrip_witness :
  client_parse_response (expected_serialization sample_date json_response)
  = Some (status_code json_response,
          injected_headers sample_date json_response ++ resp_headers json_response,
          resp_body json_response).
Proof.
  apply (serialize_parse_roundtrip sample_date json_response).
  - unfold wf_response, wf_header, line_safe, trimmed; cbn [fst snd].
    repeat split; try (vm_compute; reflexivity); try discriminate;
      try (intro H; cbn [In] in H; repeat destruct H as [H|H]; try discriminate; contradiction).
    + repeat constructor; try (vm_compute; reflexivity); try discriminate;
        intro H; cbn [In] in H; repeat destruct H as [H|H]; try discriminate; contradiction.
    + cbn. lia.
  - vm_compute; reflexivity.
Defined.

(** C9, counterexamples: a header value with a leading space comes back
    without it, and a response with 62 caller headers (65 with the injected
    ones) cannot be read back at all, since [parse_headers] refuses more
    than 64 headers. *)
Lemma serialize_parse_counterexample :
  option_map client_parse_response (http_response_serialize sample_date spaced_value_response)
  = Some (Some (200%Z,
                injected_headers sample_date spaced_value_response
                ++ [("X-Note" : cstr, "padded" : cstr)],
                ("ok" : cstr)))
  /\ option_map client_parse_response (http_response_serialize sample_date many_headers_response)
     = Some None.
Proof. split; vm_compute; reflexivity. Qed.

(** * More of the code *)

(** ** Method names *)

(** [http_method_to_string] and [http_string_to_method] are inverse: every
    method, [HTTP_METHOD_UNKNOWN] included, reads back from its name, and a
    string that is recognised as a method is exactly that method's name
    ([strcmp]: the match is case-sensitive). *)
Theorem http_method_string_roundtrip :
  (forall m, http_string_to_method (http_method_to_string m) = m) /\
  (forall s, http_string_to_method s <> HTTP_METHOD_UNKNOWN ->
             http_method_to_string (http_string_to_method s) = s).
Proof.
  split.
  - intros []; reflexivity.
  - intros s. unfold http_string_to_method.
    repeat match goal with
    | |- context [cstr_eqb s ?w] =>
        let E := fresh "E" in
        destruct (cstr_eqb s w) eqn:E; [apply cstr_eqb_true in E; subst s; intros; reflexivity|]
    end.
    intros Hs; contradiction.
Qed.

Lemma http_method_string_roundtrip_witness :
  http_method_to_string (http_string_to_method "PATCH") = ("PATCH" : cstr).
Proof.
  apply (proj2 http_method_string_roundtrip). vm_compute. discriminate.
Defined.

(** ** Header lookup after parsing *)

Lemma parse_header_lines_has_key lines st st' :
  Forall (fun l => l <> []) lines ->
  parse_header_lines st lines = Some st' ->
  hs_has_key st' =
  hs_has_key st
  || existsb (fun e => strcaseeq (fst e) "X-Idempotency-Key")
       (flat_map (fun l => match header_entry l with Some e => [e] | None => [] end) lines).
Proof.
  revert st; induction lines as [|l rest IH]; intros st Hne H.
  - simpl in H; inversion H; subst. cbn. rewrite orb_false_r. reflexivity.
  - inversion Hne as [|? ? Hl Hrest]; subst.
    rewrite parse_header_lines_cons in H by exact Hl.
    cbn [flat_map]. unfold header_entry at 1.
    destruct (split_colon l) as [[n0 v0]|]; [|apply IH; assumption].
    destruct (length (trim_whitespace n0) =? 0)%nat eqn:E0.
    + apply Nat.eqb_eq, length_zero_iff_nil in E0.
      cbn [app]. rewrite parse_header_line_skip in H by exact E0. apply IH; assumption.
    + assert (Hn : trim_whitespace n0 <> []).
      { intro E; rewrite E in E0; discriminate. }
      destruct (N.lt_ge_cases (N.of_nat (length (trim_whitespace n0))) MAX_HEADER_NAME_LENGTH)
        as [Hs|Hs]; [|rewrite parse_header_line_fail in H by auto; discriminate].
      destruct (N.lt_ge_cases (N.of_nat (length (hs_headers st))) MAX_HEADERS) as [Hc|Hc];
        [|rewrite parse_header_line_fail in H by auto; discriminate].
      destruct (parse_header_line_ok st n0 v0 Hn Hs Hc) as (st1 & E & _ & Hk & Hnk & _).
      rewrite E in H. rewrite (IH st1 Hrest H). cbn [app existsb fst].
      destruct (strcaseeq (trim_whitespace n0) "X-Idempotency-Key") eqn:K.
      * rewrite (proj2 (Hk eq_refl)). rewrite !orb_true_l, orb_true_r. reflexivity.
      * rewrite (proj2 (Hnk eq_refl)). rewrite orb_false_l. reflexivity.
Qed.

(** What [parse_headers] stores: the header lines, values cut to 8191
    bytes, and the key flag set exactly when one of them is an
    [X-Idempotency-Key] line. *)
Lemma parse_headers_fields request section r :
  parse_headers request section = Some r ->
  headers r = map (fun e => (fst e, firstn (N.to_nat (MAX_HEADER_VALUE_LENGTH - 1)) (snd e)))
                (header_entries section)
  /\ has_idempotency_key r
     = existsb (fun e => strcaseeq (fst e) "X-Idempotency-Key") (header_entries section).
Proof.
  assert (Hne := split_tokens_acc_nonempty is_crlf_delim [] section).
  unfold parse_headers. rewrite strtok_all_tokens. intros Hr.
  destruct (parse_header_lines hstate_init (split_tokens is_crlf_delim section)) as [st|] eqn:E;
    [|discriminate].
  inversion Hr; subst r; clear Hr. cbn [headers has_idempotency_key set_header_fields].
  split.
  - rewrite (parse_header_lines_headers _ _ _ Hne E). reflexivity.
  - rewrite (parse_header_lines_has_key _ _ _ Hne E). reflexivity.
Qed.

Lemma find_header_map_value (g : cstr -> cstr) es name :
  find_header (map (fun e => (fst e, g (snd e))) es) name = option_map g (find_header es name).
Proof.
  induction es as [|e es IH]; [reflexivity|]. cbn [map find_header fst snd].
  destruct (strcaseeq (fst e) name); [reflexivity|exact IH].
Qed.

Lemma find_header_existsb es name :
  existsb (fun e => strcaseeq (fst e) name) es = true <-> find_header es name <> None.
Proof.
  induction es as [|e es IH]; cbn [existsb find_header].
  - split; [discriminate|]. intros H; contradiction.
  - destruct (strcaseeq (fst e) name); cbn [orb]; [split; [discriminate|reflexivity]|exact IH].
Qed.

(** [http_get_header] on a request [parse_headers] filled in returns the
    value of the first header line of the section whose trimmed name
    matches ignoring case, cut to 8191 bytes, and NULL when no line
    matches.  (The idempotency key, by contrast, comes from the last such
    line.) *)
Theorem http_get_header_after_parse request section r name :
  parse_headers request section = Some r ->
  http_get_header r name
  = option_map (firstn (N.to_nat (MAX_HEADER_VALUE_LENGTH - 1)))
      (find_header (header_entries section) name).
Proof.
  intros H. unfold http_get_header. rewrite (proj1 (parse_headers_fields _ _ _ H)).
  apply find_header_map_value.
Qed.

Lemma http_get_header_after_parse_witness :
  http_get_header
    (match parse_headers http_request_init key_section_override with
     | Some r => r | None => http_request_init end) "x-idempotency-key"
  = Some long_key.
Proof.
  rewrite (http_get_header_after_parse http_request_init key_section_override _ _).
  - vm_compute. reflexivity.
  - vm_compute. reflexivity.
Defined.

(** After [parse_headers] succeeds, [has_idempotency_key] is set exactly
    when [http_get_header(request, "X-Idempotency-Key")] finds a header. *)
Theorem idempotency_flag_matches_lookup request section r :
  parse_headers request section = Some r ->
  has_idempotency_key r = true <-> http_get_header r "X-Idempotency-Key" <> None.
Proof.
  intros H. destruct (parse_headers_fields _ _ _ H) as [Hh Hk].
  unfold http_get_header. rewrite Hk, Hh, find_header_map_value.
  rewrite find_header_existsb.
  destruct (find_header (header_entries section) "X-Idempotency-Key"); cbn [option_map];
    split; intros E; congruence.
Qed.

Lemma idempotency_flag_matches_lookup_witness :
  http_get_header
    (match parse_headers http_request_init key_section_long with
     | Some r => r | None => http_request_init end) "X-Idempotency-Key" <> None.
Proof.
  apply (idempotency_flag_matches_lookup http_request_init key_section_long);
    vm_compute; reflexivity.
Defined.

(** ** [trim_whitespace] *)

Lemma drop_ws_suffix s : exists p, s = p ++ drop_ws s.
Proof.
  induction s as [|c s IH]; [exists []; reflexivity|]. cbn [drop_ws].
  destruct (is_trim_ws c); [|exists []; reflexivity].
  destruct IH as [p Hp]. exists (c :: p). cbn [app]. rewrite <- Hp. reflexivity.
Qed.

Lemma drop_ws_fixed s :
  match s with [] => True | c :: _ => is_trim_ws c = false end -> drop_ws s = s.
Proof. destruct s as [|c s]; [reflexivity|]. intros H; cbn [drop_ws]; rewrite H; reflexivity. Qed.

Lemma drop_ws_head s :
  match drop_ws s with [] => True | c :: _ => is_trim_ws c = false end.
Proof.
  induction s as [|c s IH]; [exact I|]. cbn [drop_ws].
  destruct (is_trim_ws c) eqn:E; [exact IH|exact E].
Qed.

Lemma drop_ws_idem s : drop_ws (drop_ws s) = drop_ws s.
Proof. apply drop_ws_fixed, drop_ws_head. Qed.

Lemma trim_whitespace_trimmed s : trimmed (trim_whitespace s).
Proof.
  unfold trimmed, trim_whitespace. rewrite rev_involutive.
  set (A := drop_ws s). set (D := drop_ws (rev A)).
  split; [|apply drop_ws_idem].
  apply drop_ws_fixed.
  destruct D as [|d D'] eqn:ED; [exact I|].
  assert (HA : match A with [] => True | c :: _ => is_trim_ws c = false end)
    by apply drop_ws_head.
  destruct A as [|a A'] eqn:EA.
  { exfalso. unfold D in ED. cbn in ED. discriminate. }
  destruct (drop_ws_suffix (rev (a :: A'))) as [p Hp].
  fold D in Hp. rewrite ED in Hp.
  destruct (exists_last (l := d :: D') ltac:(discriminate)) as (D0 & x & Ex).
  rewrite Ex in Hp |- *. cbn [rev] in Hp. rewrite app_assoc in Hp.
  apply app_inj_tail in Hp. destruct Hp as [_ <-].
  rewrite rev_app_distr. cbn. exact HA.
Qed.

Lemma drop_ws_firstn k v :
  (0 < k)%nat -> drop_ws v = v -> drop_ws (firstn k v) = firstn k v.
Proof.
  intros Hk Hv. destruct v as [|c v]; [rewrite firstn_nil; reflexivity|].
  destruct k as [|k]; [lia|]. cbn [firstn]. apply drop_ws_fixed.
  cbn [drop_ws] in Hv. destruct (is_trim_ws c) eqn:E; [|reflexivity].
  exfalso. destruct (drop_ws_suffix v) as [p Hp].
  apply (f_equal (@length ascii)) in Hv. rewrite Hp in Hv at 2.
  cbn [length] in Hv. rewrite length_app in Hv. lia.
Qed.

(** The headers [parse_headers] stores never begin or end with a space,
    tab, CR or LF in their names, never begin with one in their values,
    and values shorter than 8191 bytes (those the 8191-byte cut left whole)
    do not end with one either. *)
Theorem parse_headers_trimmed request section r :
  parse_headers request section = Some r ->
  Forall (fun h => trimmed (fst h) /\ drop_ws (snd h) = snd h
                   /\ ((length (snd h) < N.to_nat (MAX_HEADER_VALUE_LENGTH - 1))%nat ->
                       trimmed (snd h)))
    (headers r).
Proof.
  intros H. rewrite (proj1 (parse_headers_fields _ _ _ H)).
  apply Forall_forall. intros h Hh. apply in_map_iff in Hh. destruct Hh as (e & <- & He).
  unfold header_entries in He. apply in_flat_map in He. destruct He as (l & _ & He).
  unfold header_entry in He.
  destruct (split_colon l) as [[n0 v0]|]; [|contradiction].
  destruct (length (trim_whitespace n0) =? 0)%nat; [contradiction|].
  destruct He as [<-|[]]. cbn [fst snd].
  pose proof (trim_whitespace_trimmed v0) as Tv.
  split; [apply trim_whitespace_trimmed|]. split.
  - apply drop_ws_firstn; [unfold MAX_HEADER_VALUE_LENGTH; lia|apply Tv].
  - intros Hl. rewrite length_firstn in Hl.
    rewrite firstn_short by lia. exact Tv.
Qed.

Lemma parse_headers_trimmed_witness :
  Forall (fun h => trimmed (fst h) /\ drop_ws (snd h) = snd h
                   /\ ((length (snd h) < N.to_nat (MAX_HEADER_VALUE_LENGTH - 1))%nat ->
                       trimmed (snd h)))
    (headers (match parse_headers http_request_init key_section_long with
              | Some r => r | None => http_request_init end)).
Proof.
  apply (parse_headers_trimmed http_request_init key_section_long). vm_compute. reflexivity.
Defined.

(** ** Content-Length, written and read back *)

(** The [Content-Length] line [http_response_serialize] writes for a body
    of [n] bytes ([%zu]) is read back by [parse_headers] ([strtoul]) as a
    [content_length] of exactly [n], for every [n] a [size_t] holds. *)
Theorem content_length_roundtrip request n :
  (n <= ULONG_MAX)%N ->
  exists r, parse_headers request ("Content-Length: " ++ N_to_dec n ++ crlf) = Some r
            /\ content_length r = n.
Proof.
  intros Hn. destruct (N_to_dec_spec n) as (ds & -> & Hne & Hf & Hv & Hl).
  pose proof (size_nat_ulong n Hn) as Hs.
  destruct (digits_wf ds Hne Hf) as [Ht [Hcr Hlf]].
  assert (Hd : forall c, In c ds -> is_crlf_delim c = false).
  { intros c Hc. unfold is_crlf_delim.
    destruct (ascii_eqb c CR) eqn:E1; [apply ascii_eqb_true in E1; subst; contradiction|].
    destruct (ascii_eqb c LF) eqn:E2; [apply ascii_eqb_true in E2; subst; contradiction|].
    reflexivity. }
  set (L := ("Content-Length" : cstr) ++ ":"%char :: " "%char :: ds).
  assert (EL : ("Content-Length: " : cstr) ++ ds ++ crlf = L ++ CR :: [LF]).
  { unfold L, crlf. rewrite <- app_assoc. reflexivity. }
  assert (HL : forall c, In c L -> is_crlf_delim c = false).
  { intros c Hc. unfold L in Hc. apply in_app_or in Hc.
    destruct Hc as [Hc|[<-|[<-|Hc]]]; [|reflexivity|reflexivity|exact (Hd c Hc)].
    cbn in Hc. repeat destruct Hc as [<-|Hc]; try reflexivity. contradiction. }
  unfold parse_headers. rewrite strtok_all_tokens. rewrite EL. unfold split_tokens.
  rewrite split_tokens_plain_then; [|unfold L; discriminate|exact HL|reflexivity].
  change (split_tokens_acc is_crlf_delim [] [LF]) with (@nil cstr).
  rewrite parse_header_lines_cons by (unfold L; discriminate).
  unfold L. rewrite split_colon_name by (cbn; intuition discriminate).
  assert (Hnm : trim_whitespace "Content-Length" = ("Content-Length" : cstr)) by reflexivity.
  assert (Hvl : trim_whitespace (" "%char :: ds) = ds) by (apply trim_space_trimmed, Ht).
  destruct (parse_header_line_ok hstate_init "Content-Length" (" "%char :: ds))
    as (st & E & _ & _ & _ & Hcl & _);
    rewrite ?Hnm, ?Hvl in *; [discriminate|reflexivity|reflexivity|].
  rewrite E. cbn [parse_header_lines]. eexists; split; [reflexivity|].
  cbn [content_length set_header_fields]. rewrite (Hcl eq_refl).
  rewrite firstn_short by (unfold MAX_HEADER_VALUE_LENGTH; lia).
  rewrite strtoul10_digits by (auto; rewrite Hv; exact Hn). exact Hv.
Qed.

Lemma content_length_roundtrip_witness :
  exists r, parse_headers http_request_init ("Content-Length: " ++ N_to_dec 1048576 ++ crlf)
              = Some r /\ content_length r = 1048576%N.
Proof. apply content_length_roundtrip. apply N.leb_le. vm_compute. reflexivity. Defined.

(** ** The connection pipeline *)

Lemma parse_request_line_fields request line r :
  parse_request_line request line = Some r ->
  body r = body request /\ body_length r = body_length request
  /\ content_length r = content_length request
  /\ (version r = HTTP_VERSION_1_1 \/ version r = HTTP_VERSION_1_0)
  /\ hd_error (uri r) = Some "/"%char.
Proof.
  unfold parse_request_line. intros H.
  destruct (MAX_URI_LENGTH + 256 <=? N.of_nat (length line))%N; [discriminate|].
  destruct (strtok_next is_space_delim (cut_at LF (cut_at CR line))) as [[m s1]|];
    [|discriminate].
  destruct (strtok_next is_space_delim s1) as [[u s2]|]; [|discriminate].
  destruct u as [|c0 u']; [discriminate|].
  destruct (negb (ascii_eqb c0 "/"%char)) eqn:Hc; [discriminate|].
  destruct (MAX_URI_LENGTH <=? N.of_nat (length (c0 :: u')))%N; [discriminate|].
  destruct (strtok_next is_space_delim s2) as [[v s3]|]; [|discriminate].
  assert (Hu : hd_error (firstn (N.to_nat (MAX_URI_LENGTH - 1)) (c0 :: u')) = Some "/"%char).
  { replace (N.to_nat (MAX_URI_LENGTH - 1)) with (S (N.to_nat (MAX_URI_LENGTH - 2)))
      by (unfold MAX_URI_LENGTH; lia).
    cbn [firstn hd_error]. apply negb_false_iff, ascii_eqb_true in Hc. subst c0. reflexivity. }
  destruct (cstr_eqb v "HTTP/1.1");
    [|destruct (cstr_eqb v "HTTP/1.0"); [|discriminate]];
    inversion H; subst r; cbn [body body_length content_length version uri set_request_line];
    auto 7.
Qed.

Lemma parse_headers_keeps request section r :
  parse_headers request section = Some r ->
  body r = body request /\ body_length r = body_length request
  /\ version r = version request /\ uri r = uri request.
Proof.
  unfold parse_headers. destruct (parse_header_lines _ _); [|discriminate].
  intros H; inversion H; subst r. cbn. auto.
Qed.

(** A request that gets past steps 2 to 5 of [connection_handle] (and so
    reaches the idempotency check and step 7) has a [content_length] of at
    most 1 MiB, version HTTP/1.0 or HTTP/1.1, a URI starting with '/', and,
    when its [content_length] is 0, the empty body [http_request_init] left
    in place. *)
Theorem parsed_request_invariant read_body buffer request :
  parse_stage read_body buffer = inr request ->
  (content_length request <= MAX_REQUEST_BODY_SIZE)%N
  /\ (version request = HTTP_VERSION_1_1 \/ version request = HTTP_VERSION_1_0)
  /\ hd_error (uri request) = Some "/"%char
  /\ (content_length request = 0%N -> body request = [] /\ body_length request = 0%N).
Proof.
  unfold parse_stage. intros H.
  destruct (str_find (crlf ++ crlf) buffer) as [i|]; [|discriminate].
  destruct (str_find crlf (firstn i buffer)) as [j|]; [|discriminate].
  destruct (parse_request_line http_request_init (firstn j (firstn i buffer))) as [r1|] eqn:E1;
    [|discriminate].
  destruct (parse_headers r1 (skipn (j + 2) (firstn i buffer))) as [r2|] eqn:E2;
    [|discriminate].
  destruct (parse_request_line_fields _ _ _ E1) as (B1 & L1 & _ & V1 & U1).
  destruct (parse_headers_keeps _ _ _ E2) as (B2 & L2 & V2 & U2).
  rewrite B1 in B2. rewrite L1 in L2. rewrite <- V2 in V1. rewrite <- U2 in U1.
  cbn [body body_length http_request_init] in B2, L2.
  destruct (N.ltb_spec 0 (content_length r2)) as [Hp|Hz].
  - destruct (N.ltb_spec MAX_REQUEST_BODY_SIZE (content_length r2)); [discriminate|].
    destruct (read_body r2) as [b|]; [|discriminate].
    inversion H; subst request.
    cbn [body body_length content_length version uri set_body_fields].
    repeat split; auto; lia.
  - inversion H; subst request. rewrite B2, L2.
    repeat split; auto; unfold MAX_REQUEST_BODY_SIZE; lia.
Qed.

Lemma parsed_request_invariant_witness :
  let buffer : cstr := "PUT /item HTTP/1.0" ++ crlf ++ "Content-Length: 5" ++ crlf ++ crlf in
  let q := match parse_stage (parse_request_body_spec "hello") buffer with
           | inr q => q | inl _ => http_request_init end in
  (content_length q <= MAX_REQUEST_BODY_SIZE)%N
  /\ (version q = HTTP_VERSION_1_1 \/ version q = HTTP_VERSION_1_0)
  /\ hd_error (uri q) = Some "/"%char
  /\ (content_length q = 0%N -> body q = [] /\ body_length q = 0%N).
Proof.
  intros buffer q.
  apply (parsed_request_invariant (parse_request_body_spec "hello") buffer q).
  vm_compute. reflexivity.
Defined.

(** Step 5 calls [parse_request_body] only for a request whose
    [Content-Length] is positive and at most 1 MiB: the size check comes
    first, and a [Content-Length] of 0 skips the step.  Two body readers
    that agree on such requests give the same outcome on every buffer. *)
Theorem body_reader_consulted_only_in_bounds read_body read_body' buffer :
  (forall request, (0 < content_length request <= MAX_REQUEST_BODY_SIZE)%N ->
                   read_body request = read_body' request) ->
  parse_stage read_body buffer = parse_stage read_body' buffer.
Proof.
  intros Hrb. unfold parse_stage.
  destruct (str_find (crlf ++ crlf) buffer) as [i|]; [|reflexivity].
  destruct (str_find crlf (firstn i buffer)) as [j|]; [|reflexivity].
  destruct (parse_request_line http_request_init (firstn j (firstn i buffer))) as [r1|];
    [|reflexivity].
  destruct (parse_headers r1 (skipn (j + 2) (firstn i buffer))) as [r2|]; [|reflexivity].
  destruct (N.ltb_spec 0 (content_length r2)) as [Hp|Hz]; [|reflexivity].
  destruct (N.ltb_spec MAX_REQUEST_BODY_SIZE (content_length r2)) as [Hb|Hb];
    [reflexivity|].
  rewrite (Hrb r2) by lia. reflexivity.
Qed.

Lemma body_reader_consulted_only_in_bounds_witness :
  let buffer : cstr := "POST /pay HTTP/1.1" ++ crlf ++ "Content-Length: 0" ++ crlf ++ crlf in
  parse_stage no_body buffer
  = parse_stage (fun q => if (content_length q =? 0)%N then Some ("x" : cstr) else no_body q)
                buffer.
Proof.
  intros buffer. apply body_reader_consulted_only_in_bounds.
  intros q Hq. destruct (N.eqb_spec (content_length q) 0); [lia|reflexivity].
Defined.

(** The error responses [connection_handle] builds. *)
Lemma parse_stage_error read_body buffer err :
  parse_stage read_body buffer = inl err ->
  exists code msg,
    In (code, msg)
      [(HTTP_BAD_REQUEST, "Malformed HTTP request" : cstr);
       (HTTP_BAD_REQUEST, "Malformed request line" : cstr);
       (HTTP_BAD_REQUEST, "Invalid request line" : cstr);
       (HTTP_BAD_REQUEST, "Invalid headers" : cstr);
       (HTTP_PAYLOAD_TOO_LARGE, "Request body exceeds 1MB limit" : cstr);
       (HTTP_BAD_REQUEST, "Failed to read request body" : cstr)]
    /\ err = http_response_create_error code msg.
Proof.
  unfold parse_stage. intros H.
  repeat match type of H with
  | context [match ?x with _ => _ end] => destruct x
  end;
  try discriminate; inversion H; subst err; do 2 eexists;
    (split; [|reflexivity]); cbn [In]; tauto.
Qed.

Lemma create_error_shape code msg :
  In (code, msg)
    [(HTTP_BAD_REQUEST, "Malformed HTTP request" : cstr);
     (HTTP_BAD_REQUEST, "Malformed request line" : cstr);
     (HTTP_BAD_REQUEST, "Invalid request line" : cstr);
     (HTTP_BAD_REQUEST, "Invalid headers" : cstr);
     (HTTP_PAYLOAD_TOO_LARGE, "Request body exceeds 1MB limit" : cstr);
     (HTTP_BAD_REQUEST, "Failed to read request body" : cstr);
     (HTTP_UNPROCESSABLE, "POST requests require X-Idempotency-Key header" : cstr);
     (HTTP_INTERNAL_ERROR, "Failed to format response" : cstr)] ->
  let r := http_response_create_error code msg in
  resp_headers r = [("Content-Type" : cstr, "application/json" : cstr)]
  /\ status_message r = status_code_to_message (status_code r)
  /\ (length (resp_body r) < 1024)%nat /\ status_code r = code.
Proof.
  intros H r. unfold r. cbn [In] in H.
  repeat destruct H as [H|H]; try contradiction; inversion H; subst;
    (split; [reflexivity|split; [reflexivity|split; [|reflexivity]]]);
    apply Nat.ltb_lt; vm_compute; reflexivity.
Qed.

Lemma connection_response_shape read_body received r ran :
  connection_handle read_body received = ConnResponse r ran ->
  resp_headers r = [("Content-Type" : cstr, "application/json" : cstr)]
  /\ status_message r = status_code_to_message (status_code r)
  /\ (length (resp_body r) < 1024)%nat
  /\ (if ran then status_code r = HTTP_OK \/ status_code r = HTTP_INTERNAL_ERROR
      else status_code r = HTTP_BAD_REQUEST \/ status_code r = HTTP_PAYLOAD_TOO_LARGE
           \/ status_code r = HTTP_UNPROCESSABLE).
Proof.
  unfold connection_handle. intros H.
  destruct received as [|c0 rest]; [discriminate|].
  destruct (parse_stage read_body (c_string (c0 :: rest))) as [err|request] eqn:Ep.
  - inversion H; subst r ran.
    destruct (parse_stage_error _ _ _ Ep) as (code & msg & Hin & ->).
    destruct (create_error_shape code msg) as (H1 & H2 & H3 & H4);
      [cbn [In] in Hin |- *; tauto|].
    repeat split; auto. rewrite H4. cbn [In] in Hin.
    repeat destruct Hin as [Hin|Hin]; try contradiction; inversion Hin; auto.
  - destruct (http_method_eqb (method request) HTTP_METHOD_POST
              && negb (has_idempotency_key request)).
    + inversion H; subst r ran.
      destruct (create_error_shape HTTP_UNPROCESSABLE
                  "POST requests require X-Idempotency-Key header") as (H1 & H2 & H3 & H4);
        [cbn [In]; tauto|].
      repeat split; auto.
    + inversion H; subst r ran. unfold generate_success_response.
      destruct (N.leb_spec 1024 (N.of_nat (length (success_body request)))) as [Hb|Hb].
      * destruct (create_error_shape HTTP_INTERNAL_ERROR "Failed to format response")
          as (H1 & H2 & H3 & H4); [cbn [In]; tauto|].
        repeat split; auto.
      * cbn [resp_headers status_message status_code resp_body
             http_response_set_body http_response_add_header http_response_init app].
        repeat split; auto. lia.
Qed.

(** Every response [connection_handle] goes on to serialize has one
    header, [Content-Type: application/json], the standard reason phrase
    for its status, and a body shorter than 1024 bytes; its status is 200 or
    500 when step 7 (the handler) ran, and 400, 413 or 422 otherwise.  No
    other status (404, 409 or 501 in particular) is ever produced. *)
Theorem connection_handle_response_shape read_body received r ran :
  connection_handle read_body received = ConnResponse r ran ->
  resp_headers r = [("Content-Type" : cstr, "application/json" : cstr)]
  /\ status_message r = status_code_to_message (status_code r)
  /\ (length (resp_body r) < 1024)%nat
  /\ (if ran then status_code r = HTTP_OK \/ status_code r = HTTP_INTERNAL_ERROR
      else status_code r = HTTP_BAD_REQUEST \/ status_code r = HTTP_PAYLOAD_TOO_LARGE
           \/ status_code r = HTTP_UNPROCESSABLE).
Proof. apply connection_response_shape. Qed.

Lemma connection_handle_response_shape_witness :
  status_code (match connection_handle no_body post_no_key_request with
               | ConnResponse r _ => r | ConnClosed => http_response_init 0 end)
  = HTTP_UNPROCESSABLE.
Proof.
  destruct (connection_handle_response_shape no_body post_no_key_request
              (match connection_handle no_body post_no_key_request with
               | ConnResponse r _ => r | ConnClosed => http_response_init 0 end) false)
    as (_ & _ & _ & [H|[H|H]]); [vm_compute; reflexivity| | |exact H];
    vm_compute in H; discriminate.
Defined.

(** ** Serialization bounds *)

(** The budget test of [http_response_serialize], read off its checks. *)
Lemma serialize_budget date r :
  http_response_serialize date r =
  if match resp_body r with
     | [] => (N.of_nat (length (header_block date r)) <? 1024)%N
     | _ => (N.of_nat (length (header_block date r)) <=? 1024)%N
     end
  then Some (header_block date r ++ resp_body r) else None.
Proof.
  unfold http_response_serialize.
  rewrite snprintf_all_total by lia. rewrite concat_serialize_pieces, N.add_0_l.
  set (H := N.of_nat (length (header_block date r))).
  destruct (resp_body r) as [|c b] eqn:Eb; cbn [length].
  - rewrite app_nil_r, N.add_0_r. destruct (H <? 1024)%N; reflexivity.
  - set (B := N.of_nat (S (length b))).
    assert (0 < B)%N by (unfold B; lia).
    destruct (N.ltb_spec H (1024 + B)) as [H1|H1];
      destruct (N.leb_spec H 1024) as [H2|H2];
      destruct (N.ltb_spec (1024 + B) (H + B)) as [H3|H3];
      first [reflexivity | lia].
Qed.

Lemma serialize_fits date r :
  (length (header_block date r) < 1024)%nat ->
  http_response_serialize date r = Some (header_block date r ++ resp_body r).
Proof.
  intros H. rewrite serialize_budget.
  destruct (resp_body r);
    [destruct (N.ltb_spec (N.of_nat (length (header_block date r))) 1024)
    |destruct (N.leb_spec (N.of_nat (length (header_block date r))) 1024)];
    first [reflexivity | lia].
Qed.

Lemma N_to_dec_small n : (n < 1024)%N -> (length (N_to_dec n) <= 12)%nat.
Proof.
  intros Hn. destruct (N_to_dec_spec n) as (ds & -> & _ & _ & _ & Hl).
  enough (N.size_nat n <= 11)%nat by lia.
  destruct n as [|p]; [cbn; lia|]. cbn [N.size_nat].
  assert (Hp : (p < 1024)%positive) by lia.
  apply Pos.size_nat_monotone in Hp. exact Hp.
Qed.

(** Step 8 never fails for want of room: for every non-empty read and
    every [Date] value the 128-byte [strftime] buffer can hold (at most 127
    bytes), the response [connection_handle] built serializes successfully,
    to its header block followed by its body, and is sent. *)
Theorem connection_output_always_serialized date read_body received :
  received <> [] -> (length date <= 127)%nat ->
  exists r ran,
    connection_handle read_body received = ConnResponse r ran
    /\ connection_output date read_body received = Some (header_block date r ++ resp_body r).
Proof.
  intros Hne Hd.
  assert (Hc : exists r ran, connection_handle read_body received = ConnResponse r ran).
  { unfold connection_handle. destruct received as [|c rest]; [contradiction|].
    destruct (parse_stage read_body (c_string (c :: rest))) as [err|request];
      [|destruct (_ && _)]; eauto. }
  destruct Hc as (r & ran & Hr). exists r, ran. split; [exact Hr|].
  unfold connection_output. rewrite Hr. apply serialize_fits.
  destruct (connection_response_shape _ _ _ _ Hr) as (Hh & Hm & Hb & Hs).
  assert (Hcode : (length (Z_to_dec (status_code r))
                   + length (status_code_to_message (status_code r)) <= 24)%nat).
  { destruct ran;
      repeat destruct Hs as [Hs|Hs]; rewrite Hs; apply Nat.leb_le; vm_compute; reflexivity. }
  assert (Hdig : (length (N_to_dec (N.of_nat (length (resp_body r)))) <= 12)%nat)
    by (apply N_to_dec_small; lia).
  unfold header_block. rewrite Hh, Hm. rewrite !length_app.
  cbn [length concat map fst snd app list_ascii_of_string].
  cbn [length concat map fst snd app list_ascii_of_string] in Hcode, Hdig.
  unfold crlf; cbn [length app]. lia.
Qed.

Lemma connection_output_always_serialized_witness :
  exists r ran,
    connection_handle no_body unknown_method_request = ConnResponse r ran
    /\ connection_output sample_date no_body unknown_method_request
       = Some (header_block sample_date r ++ resp_body r).
Proof.
  apply connection_output_always_serialized; [discriminate|].
  apply Nat.leb_le; vm_compute; reflexivity.
Defined.

(** The serialized bytes never exceed the [estimated_size] bytes that
    [http_response_serialize] allocates ([1024] plus the body length); with
    an empty body they stay below [1024], leaving room for the terminating
    NUL of the last [snprintf]. *)
Theorem serialize_within_buffer date r out :
  http_response_serialize date r = Some out ->
  (length out <= 1024 + length (resp_body r))%nat
  /\ (resp_body r = [] -> (length out < 1024)%nat).
Proof.
  rewrite serialize_budget. intros H.
  remember (header_block date r) as hb eqn:Ehb; clear Ehb.
  destruct (resp_body r) as [|c b] eqn:Eb.
  - destruct (N.ltb_spec (N.of_nat (length (hb))) 1024) as [Hl|Hl];
      [|discriminate]. injection H as <-. rewrite app_nil_r; cbn [length]. split; [lia|intros _; lia].
  - destruct (N.leb_spec (N.of_nat (length (hb))) 1024) as [Hl|Hl];
      [|discriminate]. injection H as <-. rewrite length_app; cbn [length].
    split; [lia|discriminate].
Qed.

Lemma serialize_within_buffer_witness :
  (length (match http_response_serialize sample_date
                   (http_response_create_error HTTP_BAD_REQUEST "Invalid request line")
           with Some out => out | None => [] end)
   <= 1024 + length (resp_body (http_response_create_error HTTP_BAD_REQUEST
                                  "Invalid request line")))%nat.
Proof.
  exact (proj1 (serialize_within_buffer sample_date
    (http_response_create_error HTTP_BAD_REQUEST "Invalid request line")
    (match http_response_serialize sample_date
             (http_response_create_error HTTP_BAD_REQUEST "Invalid request line")
     with Some out => out | None => [] end)
    ltac:(vm_compute; reflexivity))).
Defined.

(** Adding a header only lengthens the header block: if the response with
    the extra header still serializes, so does the response without it. *)
Theorem serialize_add_header_antimono date r name value out :
  http_response_serialize date (http_response_add_header r name value) = Some out ->
  http_response_serialize date r = Some (header_block date r ++ resp_body r)
  /\ length out = (length (header_block date r) + length name + length value + 4
                   + length (resp_body r))%nat.
Proof.
  assert (Hlen : length (header_block date (http_response_add_header r name value))
                 = (length (header_block date r) + length name + length value + 4)%nat).
  { unfold header_block, http_response_add_header. cbn [status_code status_message
      resp_headers resp_body]. rewrite map_app, concat_app. cbn [map concat fst snd].
    rewrite !length_app. unfold crlf. cbn [length app list_ascii_of_string]. lia. }
  rewrite !serialize_budget.
  change (resp_body (http_response_add_header r name value)) with (resp_body r).
  rewrite Hlen. intros H.
  destruct (resp_body r) as [|c b] eqn:Eb.
  - destruct (N.ltb_spec (N.of_nat (length (header_block date r) + length name
                                    + length value + 4)) 1024); [|discriminate].
    pose proof (f_equal (fun o => match o with Some x => x | None => [] end) H) as Ho.
    cbv beta iota in Ho. subst out.
    destruct (N.ltb_spec (N.of_nat (length (header_block date r))) 1024); [|lia].
    split; [reflexivity|]. rewrite length_app, Hlen. cbn. lia.
  - destruct (N.leb_spec (N.of_nat (length (header_block date r) + length name
                                    + length value + 4)) 1024); [|discriminate].
    pose proof (f_equal (fun o => match o with Some x => x | None => [] end) H) as Ho.
    cbv beta iota in Ho. subst out.
    destruct (N.leb_spec (N.of_nat (length (header_block date r))) 1024); [|lia].
    split; [reflexivity|]. rewrite length_app, Hlen. reflexivity.
Qed.

Lemma serialize_add_header_antimono_witness :
  let r := http_response_create_error HTTP_NOT_FOUND "Not found" in
  http_response_serialize sample_date r = Some (header_block sample_date r ++ resp_body r).
Proof.
  intros r.
  exact (proj1 (serialize_add_header_antimono sample_date r "Connection" "close"
    (match http_response_serialize sample_date
             (http_response_add_header r "Connection" "close")
     with Some out => out | None => [] end)
    ltac:(vm_compute; reflexivity))).
Defined.

(** ** [http_response_create_error]'s own buffer check *)

Lemma error_json_length msg code :
  length (error_json msg code)
  = (35 + length msg + length (Z_to_dec code)
     + length (status_code_to_message code))%nat.
Proof.
  unfold error_json. rewrite !length_app. cbn [length list_ascii_of_string]. lia.
Qed.

(** The formatted JSON error body fits [error_body[1024]] exactly when the
    message, the decimal status code and its reason phrase take fewer than
    989 bytes together; otherwise the function fails.  On success the
    response carries the JSON content type and the body. *)
Theorem create_error_checked_iff code msg :
  (http_response_create_error_checked code msg <> None
   <-> (length msg + length (Z_to_dec code)
        + length (status_code_to_message code) < 989)%nat)
  /\ (forall r, http_response_create_error_checked code msg = Some r ->
        resp_headers r = [("Content-Type" : cstr, "application/json" : cstr)]
        /\ status_message r = status_code_to_message code
        /\ resp_body r = error_json msg code
        /\ (length (resp_body r) < 1024)%nat).
Proof.
  unfold http_response_create_error_checked. rewrite error_json_length.
  destruct (N.leb_spec 1024 (N.of_nat (35 + length msg + length (Z_to_dec code)
                                      + length (status_code_to_message code)))) as [H|H].
  - split; [split; [intros C; contradiction C; reflexivity|lia]|discriminate].
  - split; [split; [lia|discriminate]|].
    intros r E.
    pose proof (f_equal (fun o => match o with Some x => x | None => r end) E) as Ho.
    cbv beta iota in Ho. subst r.
    split; [reflexivity|split; [reflexivity|split; [reflexivity|]]].
    change (resp_body (http_response_create_error code msg)) with (error_json msg code).
    rewrite error_json_length. lia.
Qed.

Lemma create_error_checked_iff_witness :
  resp_body (match http_response_create_error_checked HTTP_CONFLICT "Duplicate" with
             | Some r => r | None => http_response_init 0 end)
  = error_json "Duplicate" HTTP_CONFLICT.
Proof.
  apply (proj2 (create_error_checked_iff HTTP_CONFLICT "Duplicate")).
  vm_compute; reflexivity.
Defined.

(** ** The send loop of step 8 *)

Lemma firstn_add_skipn {A} (a b : nat) (l : list A) :
  firstn (a + b) l = firstn a l ++ firstn b (skipn a l).
Proof.
  revert l; induction a as [|a IH]; intros l; [reflexivity|].
  destruct l as [|x l]; cbn; [now rewrite firstn_nil|]. f_equal. apply IH.
Qed.

Lemma send_loop_from sends serialized t :
  let (chunks, st) := send_loop sends serialized t in
  exists t', (t <= t')%nat
    /\ concat chunks = firstn (t' - t) (skipn t serialized)
    /\ (st = SendDone <-> (length serialized <= t')%nat)
    /\ (st = SendFailed -> exists s, In s sends /\ (s < 0)%Z).
Proof.
  revert t; induction sends as [|s ss IH]; intros t; cbn [send_loop].
  - destruct (Nat.ltb_spec t (length serialized)) as [Hl|Hl].
    + exists t. rewrite Nat.sub_diag. repeat split; try discriminate; lia.
    + exists t. rewrite Nat.sub_diag. repeat split; try discriminate; lia.
  - destruct (Nat.ltb_spec t (length serialized)) as [Hl|Hl];
      [|exists t; rewrite Nat.sub_diag; repeat split; try discriminate; lia].
    assert (Hw : connection_write (skipn t serialized) s = if (s <? 0)%Z then (-1)%Z else s).
    { unfold connection_write. destruct (skipn t serialized) eqn:Es; [|reflexivity].
      apply (f_equal (@length ascii)) in Es. rewrite length_skipn in Es. cbn in Es. lia. }
    rewrite Hw. destruct (Z.ltb_spec s 0) as [Hs|Hs].
    + cbn. exists t. rewrite Nat.sub_diag.
      repeat split; try discriminate; try lia. intros _. exists s. split; [left|]; auto.
    + destruct (Z.ltb_spec s 0); [lia|].
      specialize (IH (t + Z.to_nat s)%nat).
      destruct (send_loop ss serialized (t + Z.to_nat s)) as [chunks st].
      destruct IH as (t' & Ht & Hc & Hd & Hf).
      exists t'. split; [lia|]. split; [|split; [exact Hd|]].
      * cbn [concat]. rewrite Hc.
        replace (t + Z.to_nat s)%nat with (Z.to_nat s + t)%nat by lia.
        rewrite <- skipn_skipn.
        replace (t' - t)%nat with (Z.to_nat s + (t' - (Z.to_nat s + t)))%nat by lia.
        rewrite firstn_add_skipn. reflexivity.
      * intros E. destruct (Hf E) as (s' & Hin & Hneg). exists s'. split; [right|]; auto.
Qed.

(** Whatever [send] returns, the loop sends the serialized response in
    order and without repetition: when it finishes, the bytes sent are
    exactly the response; when it fails or is still going, they are a proper
    prefix of it; and it fails only after a negative [send] result. *)
Theorem send_loop_prefix sends serialized :
  let (chunks, st) := send_loop sends serialized 0 in
  (st = SendDone -> concat chunks = serialized)
  /\ (st <> SendDone ->
      exists t, (t < length serialized)%nat /\ concat chunks = firstn t serialized)
  /\ (st = SendFailed -> exists s, In s sends /\ (s < 0)%Z).
Proof.
  pose proof (send_loop_from sends serialized 0) as H.
  destruct (send_loop sends serialized 0) as [chunks st].
  destruct H as (t' & _ & Hc & Hd & Hf). rewrite Nat.sub_0_r in Hc. cbn [skipn] in Hc.
  split; [|split; [|exact Hf]].
  - intros E. rewrite Hc. apply firstn_all2. apply Hd, E.
  - intros E. exists t'. split; [|exact Hc].
    destruct (Nat.le_gt_cases (length serialized) t') as [Hl|Hl]; [|exact Hl].
    contradiction E. apply Hd, Hl.
Qed.

Lemma send_loop_prefix_witness :
  concat (fst (send_loop [3%Z; 2%Z; 4%Z] ("HTTP/1.1" : cstr) 0)) = ("HTTP/1.1" : cstr).
Proof.
  pose proof (send_loop_prefix [3%Z; 2%Z; 4%Z] ("HTTP/1.1" : cstr)) as H.
  destruct (send_loop [3%Z; 2%Z; 4%Z] ("HTTP/1.1" : cstr) 0) as [chunks st] eqn:E.
  vm_compute in E. injection E as <- <-. cbn [fst]. apply (proj1 H). reflexivity.
Defined.

(** ** The task queue's capacity *)

Module TaskQueueBounds.
Import TaskQueue TaskQueueFacts.

Definition within_capacity (q : task_queue) : Prop :=
  (0 < tq_max_size q -> tq_count q <= tq_max_size q)%Z.

Lemma step_capacity q o :
  count_ok q -> within_capacity q ->
  within_capacity (fst (step q o))
  /\ tq_max_size (fst (step q o)) = tq_max_size q
  /\ (snd (step q o) = EvEnqueueWaits -> 0 < tq_max_size q)%Z.
Proof.
  unfold within_capacity, count_ok. intros Hc Hw.
  destruct o as [fd| |]; cbn [step].
  - unfold task_queue_enqueue.
    destruct (tq_shutdown q); [cbn; repeat split; auto; discriminate|].
    destruct (Z.ltb_spec 0 (tq_max_size q)) as [H0|H0];
      destruct (Z.leb_spec (tq_max_size q) (tq_count q)) as [H1|H1];
      cbn; repeat split; auto; try discriminate; intros; lia.
  - unfold task_queue_dequeue.
    destruct ((tq_count q =? 0)%Z && negb (tq_shutdown q));
      [cbn; repeat split; auto; discriminate|].
    destruct (tq_shutdown q && (tq_count q =? 0)%Z);
      [cbn; repeat split; auto; discriminate|].
    destruct (tq_items q) as [|fd rest] eqn:Ei;
      cbn; repeat split; auto; try discriminate.
    intros H. specialize (Hw H). lia.
  - cbn; repeat split; auto; discriminate.
Qed.

Lemma run_capacity q ops :
  count_ok q -> within_capacity q ->
  within_capacity (fst (run q ops))
  /\ tq_max_size (fst (run q ops)) = tq_max_size q
  /\ (tq_max_size q <= 0 -> ~ In EvEnqueueWaits (snd (run q ops)))%Z.
Proof.
  revert q; induction ops as [|o ops IH]; intros q Hc Hw; [cbn; repeat split; auto|].
  cbn [run]. destruct (step_capacity q o Hc Hw) as (Hw1 & Hm & Hwait).
  destruct (step_facts q o Hc) as (Hc1 & _).
  destruct (step q o) as [q1 e]. cbn [fst snd] in *.
  destruct (IH q1 Hc1 Hw1) as (Hw2 & Hm2 & Hn2).
  destruct (run q1 ops) as [q2 es]. cbn [fst snd] in *.
  split; [exact Hw2|split; [congruence|]]. intros Hle [E|E].
  - subst e. specialize (Hwait eq_refl). lia.
  - apply (Hn2 ltac:(lia) E).
Qed.

(** From [task_queue_init], whatever calls are made: [task_queue_size]
    is the number of queued tasks; with a positive [max_size] it never
    exceeds [max_size]; with [max_size <= 0] (no limit) an enqueue never
    waits. *)
Theorem task_queue_size_bounded max_size ops :
  let q := fst (run (task_queue_init max_size) ops) in
  task_queue_size q = Z.of_nat (length (tq_items q))
  /\ (0 < max_size -> task_queue_size q <= max_size)%Z
  /\ (max_size <= 0 -> ~ In EvEnqueueWaits (snd (run (task_queue_init max_size) ops)))%Z.
Proof.
  intros q.
  assert (H0 : count_ok (task_queue_init max_size)) by reflexivity.
  assert (H1 : within_capacity (task_queue_init max_size))
    by (unfold within_capacity; cbn; lia).
  destruct (run_facts _ ops H0) as (_ & Hc & _).
  destruct (run_capacity _ ops H0 H1) as (Hw & Hm & Hn). fold q in Hw, Hm.
  cbn [tq_max_size task_queue_init] in Hm, Hn.
  unfold task_queue_size. split; [exact Hc|split; [|exact Hn]].
  intros Hp. rewrite <- Hm. apply Hw. rewrite Hm. exact Hp.
Qed.

Lemma task_queue_size_bounded_witness :
  (task_queue_size (fst (run (task_queue_init 1)
                         [OpEnqueue 4; OpEnqueue 5; OpDequeue; OpEnqueue 6])) <= 1)%Z.
Proof.
  exact (proj1 (proj2 (task_queue_size_bounded 1
           [OpEnqueue 4; OpEnqueue 5; OpDequeue; OpEnqueue 6])) ltac:(lia)).
Defined.

End TaskQueueBounds.
